(** * loxilb-ingress: the ingress reconciler of [managers/ingress.go]

    A shallow embedding of [LoxilbIngressReconciler] (the current revision of
    [managers/ingress.go], the one with the snapshot diff and the
    direct-loadbalance mode) and the properties of its reconciliation pass.

    - Go structs are records, one module per struct so that the field names
      of the source are kept ([EndpointAddress.IP], [ServicePort.Port], ...).
    - Go integers are [Z]; the conversions [uint16(..)] and [int32(..)] are
      written out as wrap-around.
    - [map[string]string] (annotations, label selectors) is [gmap string string].
    - A Go pointer that may be nil is an [option].
    - A Go result pair [(v, err)] is a pair [(v, option error)]; a [Get] that
      fills an object or fails is a sum [obj + error].
    - The calls that leave the process (the remote rule store and the status
      writer) are threaded through a state monad whose state is the history of
      calls issued so far; their answers are functions of that history. *)

From Stdlib Require Import ZArith String Ascii List Bool Lia DecimalString Permutation.
From stdpp Require Import base strings gmap.
Import ListNotations.

(** ** Go primitives *)

Definition uint16 (z : Z) : Z := (z mod 65536)%Z.
Definition int32 (z : Z) : Z := ((z + 2147483648) mod 4294967296 - 2147483648)%Z.

(** A Go [error]: its message and whether [errors.IsNotFound] holds of it. *)
Record error := { IsNotFound : bool; Error : string }.

Definition Errorf (msg : string) : error := {| IsNotFound := false; Error := msg |}.

(** [fmt.Sprintf("%s_%s", a, b)] *)
Definition Sprintf_s_s (a b : string) : string := a +:+ "_" +:+ b.

(** [strconv.Atoi] as [intstr.IntValue] uses it: the error is dropped, so a
    string that is not a decimal integer gives 0 and one out of the 64-bit
    range gives the nearest bound. *)
Definition digitVal (c : ascii) : option Z :=
  let n := Z.of_N (N_of_ascii c) in
  if ((48 <=? n) && (n <=? 57))%Z then Some (n - 48)%Z else None.

Fixpoint parseDigits (s : string) (acc : Z) : option Z :=
  match s with
  | EmptyString => Some acc
  | String c s' =>
      match digitVal c with
      | Some d => parseDigits s' (10 * acc + d)%Z
      | None => None
      end
  end.

Definition clampInt64 (z : Z) : Z :=
  Z.max (-9223372036854775808) (Z.min 9223372036854775807 z).

Definition Atoi (s : string) : Z :=
  let '(neg, body) :=
    match s with
    | String "+"%char rest => (false, rest)
    | String "-"%char rest => (true, rest)
    | _ => (false, s)
    end in
  match body with
  | EmptyString => 0%Z
  | _ =>
      match parseDigits body 0 with
      | Some n => clampInt64 (if neg then (- n)%Z else n)
      | None => 0%Z
      end
  end.

Definition Itoa (z : Z) : string := NilZero.string_of_int (Z.to_int z).

(** [strings.ToLower] on the ASCII letters (protocol names are ASCII). *)
Definition lowerAscii (c : ascii) : ascii :=
  let n := N_of_ascii c in
  if ((65 <=? n) && (n <=? 90))%N then ascii_of_N (n + 32) else c.

Fixpoint ToLower (s : string) : string :=
  match s with
  | EmptyString => EmptyString
  | String c s' => String (lowerAscii c) (ToLower s')
  end.

(** ** k8s.io/apimachinery *)

Module NamespacedName.
Record t := { Namespace : string; Name : string }.
End NamespacedName.

Module IntOrString.
Inductive t :=
| Int (IntVal : Z)
| Str (StrVal : string).

(** [IntValue()]: a string value goes through [strconv.Atoi], error dropped. *)
Definition IntValue (v : t) : Z :=
  match v with
  | Int i => i
  | Str s => Atoi s
  end.

Definition String (v : t) : string :=
  match v with
  | Int i => Itoa i
  | Str s => s
  end.
End IntOrString.

(** ** k8s.io/api/core/v1 *)

Module EndpointAddress.
Record t := { IP : string }.
End EndpointAddress.

Module EndpointPort.
Record t := { Name : string; Port : Z }.
End EndpointPort.

Module EndpointSubset.
Record t := { Addresses : list EndpointAddress.t; Ports : list EndpointPort.t }.
End EndpointSubset.

Module Endpoints.
Record t := { Subsets : list EndpointSubset.t }.
End Endpoints.

Module ServicePort.
Record t := { Protocol : string; Port : Z; TargetPort : IntOrString.t }.
End ServicePort.

Module PortStatus.
Record t := { Port : Z; Protocol : string; Error : option string }.
End PortStatus.

Module LoadBalancerIngress.
Record t := { IP : string; Hostname : string; Ports : list PortStatus.t }.
End LoadBalancerIngress.

Module Service.
(** [Spec.Ports], [Spec.Selector] and [Status.LoadBalancer.Ingress]. *)
Record t := {
  Name : string;
  Ports : list ServicePort.t;
  Selector : gmap string string;
  StatusIngress : list LoadBalancerIngress.t
}.
End Service.

Module ContainerPort.
Record t := { Name : string; ContainerPort : Z }.
End ContainerPort.

Module Container.
Record t := { Ports : list ContainerPort.t }.
End Container.

Module Pod.
Record t := { Containers : list Container.t }.
End Pod.

(** ** k8s.io/api/networking/v1 *)

Module ServiceBackendPort.
Record t := { Name : string; Number : Z }.
End ServiceBackendPort.

Module IngressServiceBackend.
Record t := { Name : string; Port : ServiceBackendPort.t }.
End IngressServiceBackend.

Module IngressBackend.
Record t := { Service : option IngressServiceBackend.t }.
End IngressBackend.

Module HTTPIngressPath.
Record t := { Path : string; Backend : IngressBackend.t }.
End HTTPIngressPath.

Module HTTPIngressRuleValue.
Record t := { Paths : list HTTPIngressPath.t }.
End HTTPIngressRuleValue.

Module IngressRule.
Record t := { Host : string; HTTP : option HTTPIngressRuleValue.t }.
End IngressRule.

Module IngressTLS.
Record t := { Hosts : list string; SecretName : string }.
End IngressTLS.

Module IngressPortStatus.
Record t := { Port : Z; Protocol : string; Error : option string }.
End IngressPortStatus.

Module IngressLoadBalancerIngress.
Record t := { IP : string; Hostname : string; Ports : list IngressPortStatus.t }.
End IngressLoadBalancerIngress.

Module Ingress.
(** [Spec.Rules], [Spec.TLS] and [Status.LoadBalancer.Ingress]. *)
Record t := {
  Namespace : string;
  Name : string;
  Annotations : gmap string string;
  Rules : list IngressRule.t;
  TLS : list IngressTLS.t;
  StatusIngress : list IngressLoadBalancerIngress.t
}.

(** [ingress.Status.LoadBalancer.Ingress = st] *)
Definition withStatusIngress (ing : t) (st : list IngressLoadBalancerIngress.t) : t :=
  {| Namespace := Namespace ing; Name := Name ing; Annotations := Annotations ing;
     Rules := Rules ing; TLS := TLS ing; StatusIngress := st |}.

(** The same ingress with another rule list. *)
Definition withRules (ing : t) (rules : list IngressRule.t) : t :=
  {| Namespace := Namespace ing; Name := Name ing; Annotations := Annotations ing;
     Rules := rules; TLS := TLS ing; StatusIngress := StatusIngress ing |}.
End Ingress.

(** ** github.com/loxilb-io/kube-loxilb/pkg/api *)

Inductive EpSelect :=
| LbSelRr | LbSelHash | LbSelPrio | LbSelRrPersist | LbSelLeastConnections | LbSelN2.

Module LoadBalancerEndpoint.
Record t := { EndpointIP : string; TargetPort : Z; Weight : Z }.
End LoadBalancerEndpoint.

Module LoadBalancerService.
Record t := {
  ExternalIP : string;
  Port : Z;
  Protocol : string;
  Sel : EpSelect;
  Mode : Z;
  Security : Z;
  Name : string;
  Host : string
}.
End LoadBalancerService.

Module LoadBalancerModel.
Record t := { Service : LoadBalancerService.t; Endpoints : list LoadBalancerEndpoint.t }.
End LoadBalancerModel.

(** ** sigs.k8s.io/controller-runtime *)

Module ctrl.
(** [RequeueAfter] in nanoseconds, as [time.Duration]. *)
Record Result := { RequeueAfter : Z }.
Definition Request := NamespacedName.t.
End ctrl.

Definition Second : Z := 1000000000.

(** ** pkg/annotation.go *)

Module pkg.
Definition EndPointSel_RR : string := "rr".
Definition EndPointSel_HASH : string := "hash".
Definition EndpointSel_PRIORITY : string := "priority".
Definition EndPointSel_PERSIST : string := "persist".
Definition EndPointSel_LC : string := "lc".
Definition EndPointSel_N2 : string := "n2".
End pkg.

(** ** The reconciler and the world it talks to *)

(** A call that leaves the process: the remote rule store
    ([r.LoxiClient.LoadBalancer()]) and the status writer ([r.Status()]). *)
Inductive Call :=
| CallList
| CallCreate (model : LoadBalancerModel.t)
| CallDeleteByName (name : string)
| CallStatusUpdate (ingress : Ingress.t).

(** [LoxilbIngressReconciler]: the object store client (read-only during a
    pass), the address of the load balancer and the remote operations. The
    answer of a remote operation may depend on every call issued before it. *)
Record LoxilbIngressReconciler := {
  Get_Ingress : NamespacedName.t -> Ingress.t + error;
  Get_Endpoints : NamespacedName.t -> Endpoints.t + error;
  Get_Service : NamespacedName.t -> Service.t + error;
  List_Pods : gmap string string -> list Pod.t + error;
  LoxiClient_Host : string;
  LoadBalancer_List : list Call -> list LoadBalancerModel.t + error;
  LoadBalancer_Create : list Call -> LoadBalancerModel.t -> option error;
  LoadBalancer_DeleteByName : list Call -> string -> option error;
  Status_Update : list Call -> Ingress.t -> option error
}.

(** State monad over the history of calls. *)
Definition M (A : Type) : Type := list Call -> A * list Call.

Definition ret {A} (a : A) : M A := fun h => (a, h).

Definition bind {A B} (m : M A) (k : A -> M B) : M B :=
  fun h => let '(a, h') := m h in k a h'.

Notation "x <- m ;; k" := (bind m (fun x => k))
  (at level 100, m at next level, right associativity).
Notation "m ;;; k" := (bind m (fun _ => k))
  (at level 100, right associativity).

Definition List (r : LoxilbIngressReconciler) : M (list LoadBalancerModel.t + error) :=
  fun h => (LoadBalancer_List r h, h ++ [CallList]).

Definition Create (r : LoxilbIngressReconciler) (model : LoadBalancerModel.t) : M (option error) :=
  fun h => (LoadBalancer_Create r h model, h ++ [CallCreate model]).

Definition DeleteByName (r : LoxilbIngressReconciler) (name : string) : M (option error) :=
  fun h => (LoadBalancer_DeleteByName r h name, h ++ [CallDeleteByName name]).

Definition StatusUpdate (r : LoxilbIngressReconciler) (ingress : Ingress.t) : M (option error) :=
  fun h => (Status_Update r h ingress, h ++ [CallStatusUpdate ingress]).

(** ** Rule model builder *)

Definition selOf (epSelect : string) : EpSelect :=
  if String.eqb epSelect pkg.EndPointSel_RR then LbSelRr
  else if String.eqb epSelect pkg.EndPointSel_HASH then LbSelHash
  else if String.eqb epSelect pkg.EndpointSel_PRIORITY then LbSelPrio
  else if String.eqb epSelect pkg.EndPointSel_PERSIST then LbSelRrPersist
  else if String.eqb epSelect pkg.EndPointSel_LC then LbSelLeastConnections
  else if String.eqb epSelect pkg.EndPointSel_N2 then LbSelN2
  else LbSelRr.

Definition createDirectLoxiLoadBalancerService
    (ns name externalIP protocol host epSelect : string) (port : Z) : LoadBalancerService.t :=
  {| LoadBalancerService.ExternalIP := externalIP;
     LoadBalancerService.Port := uint16 port;
     LoadBalancerService.Protocol := ToLower protocol;
     LoadBalancerService.Sel := selOf epSelect;
     LoadBalancerService.Mode := 4;
     LoadBalancerService.Security := 0;
     LoadBalancerService.Name := Sprintf_s_s ns name;
     LoadBalancerService.Host := host |}.

Definition createLoxiLoadBalancerService
    (ns name externalIP : string) (security : Z) (host : string) : LoadBalancerService.t :=
  {| LoadBalancerService.ExternalIP := externalIP;
     LoadBalancerService.Port := if (security =? 0)%Z then 80 else 443;
     LoadBalancerService.Protocol := "tcp";
     LoadBalancerService.Sel := LbSelRr;
     LoadBalancerService.Mode := 4;
     LoadBalancerService.Security := security;
     LoadBalancerService.Name := Sprintf_s_s ns name;
     LoadBalancerService.Host := host |}.

Definition noEndpointsError (ns name : string) : error :=
  Errorf ("no endpoints have been added to the " +:+ ns +:+ "/" +:+ name
          +:+ " service yet. please wait").

(** The two nested loops over [ep.Subsets] and [subset.Addresses]. *)
Definition endpointsOf (ep : Endpoints.t) (targetPort : Z) : list LoadBalancerEndpoint.t :=
  flat_map (fun subset =>
    map (fun addr =>
      {| LoadBalancerEndpoint.EndpointIP := EndpointAddress.IP addr;
         LoadBalancerEndpoint.TargetPort := uint16 targetPort;
         LoadBalancerEndpoint.Weight := 1 |})
      (EndpointSubset.Addresses subset))
    (Endpoints.Subsets ep).

Definition createLoxiLoadBalancerEndpointsWithTargetPort
    (r : LoxilbIngressReconciler) (ns name : string) (targetPort : Z)
  : list LoadBalancerEndpoint.t * option error :=
  let key := {| NamespacedName.Namespace := ns; NamespacedName.Name := name |} in
  match Get_Endpoints r key with
  | inr err => ([], Some err)
  | inl ep =>
      let loxilbEpList := endpointsOf ep targetPort in
      if (length loxilbEpList <=? 0)%nat
      then (loxilbEpList, Some (noEndpointsError ns name))
      else (loxilbEpList, None)
  end.

Definition checkTLSHost (host : string) (TLS : list IngressTLS.t) : bool :=
  existsb (fun tls => existsb (fun tlsHost => String.eqb host tlsHost) (IngressTLS.Hosts tls)) TLS.

Definition getBackendServiceNamespace (ingress : Ingress.t) (backendName : string) : string :=
  match Ingress.Annotations ingress !! "external-backend-service" with
  | Some _ =>
      match Ingress.Annotations ingress !! ("service-" +:+ backendName +:+ "-namespace") with
      | Some backendNamespace => backendNamespace
      | None => Ingress.Namespace ingress
      end
  | None => Ingress.Namespace ingress
  end.

(** [GetServicePortIntValue]: the first container port, in pod, container and
    port order, whose name is the target port's string. *)
Definition containerPorts (pods : list Pod.t) : list ContainerPort.t :=
  flat_map (fun pod => flat_map Container.Ports (Pod.Containers pod)) pods.

Definition GetServicePortIntValue
    (r : LoxilbIngressReconciler) (svc : Service.t) (port : ServicePort.t) : Z * option error :=
  let targetPort := ServicePort.TargetPort port in
  if negb (IntOrString.IntValue targetPort =? 0)%Z
  then (int32 (IntOrString.IntValue targetPort), None)
  else
    match List_Pods r (Service.Selector svc) with
    | inr err => (0%Z, Some err)
    | inl podList =>
        match find (fun p => String.eqb (ContainerPort.Name p) (IntOrString.String targetPort))
                   (containerPorts podList) with
        | Some p => (ContainerPort.ContainerPort p, None)
        | None =>
            (0%Z, Some (Errorf ("not found port name " +:+ IntOrString.String targetPort
                                +:+ " in service " +:+ Service.Name svc)))
        end
    end.

(** The loop of [createDirectLoxiModelList] over [svc.Spec.Ports]; [models]
    is the slice built so far. *)
Fixpoint directPortsLoop (r : LoxilbIngressReconciler) (svc : Service.t)
    (svcNs svcName lbName selStr : string)
    (ports : list ServicePort.t) (models : list LoadBalancerModel.t)
  : list LoadBalancerModel.t * option error :=
  match ports with
  | [] => (models, None)
  | port :: rest =>
      let protocol := ServicePort.Protocol port in
      match GetServicePortIntValue r svc port with
      | (_, Some err) => (models, Some err)
      | (targetPortNum, None) =>
          let loxisvc := createDirectLoxiLoadBalancerService
                           svcNs lbName "0.0.0.0" protocol "" selStr (ServicePort.Port port) in
          match createLoxiLoadBalancerEndpointsWithTargetPort r svcNs svcName targetPortNum with
          | (_, Some err) => (models, Some err)
          | (loxiep, None) =>
              let model := {| LoadBalancerModel.Service := loxisvc;
                              LoadBalancerModel.Endpoints := loxiep |} in
              directPortsLoop r svc svcNs svcName lbName selStr rest (models ++ [model])
          end
      end
  end.

Definition createDirectLoxiModelList (r : LoxilbIngressReconciler) (ingress : Ingress.t)
  : list LoadBalancerModel.t * option error :=
  match Ingress.Annotations ingress !! "loxilb.io/direct-loadbalance-service" with
  | None => ([], Some (Errorf
      "no service name is set in the ingress annotation for direct-loadbalance"))
  | Some svcName =>
      let svcNs :=
        match Ingress.Annotations ingress !! "loxilb.io/direct-loadbalance-namespace" with
        | Some svcNs => svcNs
        | None => Ingress.Namespace ingress
        end in
      let selStr :=
        match Ingress.Annotations ingress !! "loxilb.io/epselect" with
        | Some selStr => selStr
        | None => pkg.EndPointSel_RR
        end in
      match Get_Service r {| NamespacedName.Namespace := svcNs;
                             NamespacedName.Name := svcName |} with
      | inr err => ([], Some err)
      | inl svc =>
          let lbName := Ingress.Name ingress in
          directPortsLoop r svc svcNs svcName lbName selStr (Service.Ports svc) []
      end
  end.

(** The inner loop of [createLoxiModelList] over [rule.HTTP.Paths]. *)
Fixpoint pathsLoop (r : LoxilbIngressReconciler) (ingress : Ingress.t) (rule : IngressRule.t)
    (paths : list HTTPIngressPath.t) (models : list LoadBalancerModel.t)
  : list LoadBalancerModel.t * option error :=
  match paths with
  | [] => (models, None)
  | path :: rest =>
      match IngressBackend.Service (HTTPIngressPath.Backend path) with
      | None => pathsLoop r ingress rule rest models
      | Some service =>
          let name := IngressServiceBackend.Name service in
          let ns := getBackendServiceNamespace ingress name in
          let port := ServiceBackendPort.Number (IngressServiceBackend.Port service) in
          let security :=
            if checkTLSHost (IngressRule.Host rule) (Ingress.TLS ingress) then 1%Z else 0%Z in
          let lbName :=
            if (security =? 1)%Z then Ingress.Name ingress +:+ "_https"
            else Ingress.Name ingress in
          let loxisvc := createLoxiLoadBalancerService (Ingress.Namespace ingress) lbName
                           (LoxiClient_Host r) security (IngressRule.Host rule) in
          match createLoxiLoadBalancerEndpointsWithTargetPort r ns name port with
          | (_, Some err) => (models, Some err)
          | (loxiep, None) =>
              let model := {| LoadBalancerModel.Service := loxisvc;
                              LoadBalancerModel.Endpoints := loxiep |} in
              pathsLoop r ingress rule rest (models ++ [model])
          end
      end
  end.

(** The outer loop of [createLoxiModelList] over [ingress.Spec.Rules]. *)
Fixpoint rulesLoop (r : LoxilbIngressReconciler) (ingress : Ingress.t)
    (rules : list IngressRule.t) (models : list LoadBalancerModel.t)
  : list LoadBalancerModel.t * option error :=
  match rules with
  | [] => (models, None)
  | rule :: rest =>
      match IngressRule.HTTP rule with
      | None => rulesLoop r ingress rest models
      | Some http =>
          match pathsLoop r ingress rule (HTTPIngressRuleValue.Paths http) models with
          | (models', Some err) => (models', Some err)
          | (models', None) => rulesLoop r ingress rest models'
          end
      end
  end.

Definition createLoxiModelList (r : LoxilbIngressReconciler) (ingress : Ingress.t)
  : list LoadBalancerModel.t * option error :=
  rulesLoop r ingress (Ingress.Rules ingress) [].

(** ** State differ *)

(** The innermost test: same address and same target port (weight ignored). *)
Definition epMatches (mep ep : LoadBalancerEndpoint.t) : bool :=
  String.eqb (LoadBalancerEndpoint.EndpointIP mep) (LoadBalancerEndpoint.EndpointIP ep)
  && (LoadBalancerEndpoint.TargetPort mep =? LoadBalancerEndpoint.TargetPort ep)%Z.

(** The body of the loop over [currLBList.Item]: [true] when the loop takes
    [continue nextModel] at [lbItem]. *)
Definition modelMatches (model lbItem : LoadBalancerModel.t) : bool :=
  if String.eqb (LoadBalancerService.Name (LoadBalancerModel.Service lbItem))
                (LoadBalancerService.Name (LoadBalancerModel.Service model))
     && (length (LoadBalancerModel.Endpoints lbItem)
         =? length (LoadBalancerModel.Endpoints model))%nat
  then forallb (fun mep => existsb (fun ep => epMatches mep ep)
                                   (LoadBalancerModel.Endpoints lbItem))
               (LoadBalancerModel.Endpoints model)
  else false.

(** The [nextModel] loop: the models that no snapshot item matches, in order. *)
Definition diffModels (models currLBList : list LoadBalancerModel.t)
  : list LoadBalancerModel.t :=
  List.filter (fun model => negb (existsb (modelMatches model) currLBList)) models.

(** ** Status reflector *)

Definition checkIngressLoadBalancerIngressExist
    (ingress : Ingress.t) (serviceIngress : LoadBalancerIngress.t) : bool :=
  existsb (fun i =>
    (negb (String.eqb (IngressLoadBalancerIngress.IP i) "")
     && String.eqb (IngressLoadBalancerIngress.IP i) (LoadBalancerIngress.IP serviceIngress))
    || (negb (String.eqb (IngressLoadBalancerIngress.Hostname i) "")
        && String.eqb (IngressLoadBalancerIngress.Hostname i)
                      (LoadBalancerIngress.Hostname serviceIngress)))
    (Ingress.StatusIngress ingress).

Definition newIngressLoadBalancerIngress (ing : LoadBalancerIngress.t)
  : IngressLoadBalancerIngress.t :=
  {| IngressLoadBalancerIngress.IP := LoadBalancerIngress.IP ing;
     IngressLoadBalancerIngress.Hostname := LoadBalancerIngress.Hostname ing;
     IngressLoadBalancerIngress.Ports :=
       map (fun port => {| IngressPortStatus.Port := PortStatus.Port port;
                           IngressPortStatus.Protocol := PortStatus.Protocol port;
                           IngressPortStatus.Error := PortStatus.Error port |})
           (LoadBalancerIngress.Ports ing) |}.

(** The loop over [svc.Status.LoadBalancer.Ingress]; it appends to the status
    of [ingress] in place, so later entries are checked against earlier ones. *)
Fixpoint statusLoop (ingress : Ingress.t) (ings : list LoadBalancerIngress.t) : Ingress.t :=
  match ings with
  | [] => ingress
  | ing :: rest =>
      if checkIngressLoadBalancerIngressExist ingress ing
      then statusLoop ingress rest
      else statusLoop
             (Ingress.withStatusIngress ingress
                (Ingress.StatusIngress ingress ++ [newIngressLoadBalancerIngress ing]))
             rest
  end.

(** [ingress.Annotations[k]]: the zero value when the key is absent. *)
Definition annotation (ingress : Ingress.t) (k : string) : string :=
  default "" (Ingress.Annotations ingress !! k).

(** The key of the status source; [None] is the early [return nil]. *)
Definition lbSvcKey (ingress : Ingress.t) : option NamespacedName.t :=
  match Ingress.Annotations ingress !! "gateway-api-controller" with
  | Some gwProvider =>
      if String.eqb gwProvider "loxilb.io/loxilb"
      then Some {| NamespacedName.Namespace := annotation ingress "parent-gateway-namespace";
                   NamespacedName.Name :=
                     annotation ingress "parent-gateway" +:+ "-ingress-service" |}
      else Some {| NamespacedName.Namespace := ""; NamespacedName.Name := "" |}
  | None =>
      let ns :=
        match Ingress.Annotations ingress !! "loadbalancer-service-namespace" with
        | Some lbNs => lbNs
        | None => "default"
        end in
      match Ingress.Annotations ingress !! "loadbalancer-service" with
      | Some lbName => Some {| NamespacedName.Namespace := ns; NamespacedName.Name := lbName |}
      | None => None
      end
  end.

Definition updateIngressStatus (r : LoxilbIngressReconciler) (ingress : Ingress.t)
  : M (option error) :=
  match lbSvcKey ingress with
  | None => ret None
  | Some key =>
      match Get_Service r key with
      | inr err => ret (Some err)
      | inl svc => StatusUpdate r (statusLoop ingress (Service.StatusIngress svc))
      end
  end.

(** ** Reconciliation driver *)

(** The scan of the snapshot that sets [exist] (here [exist_], as [exist] is
    taken) and [existHTTPS]. *)
Definition existScan (ruleName ruleNameHTTPS : string) (items : list LoadBalancerModel.t)
  : bool * bool :=
  fold_left (fun (acc : bool * bool) lbItem =>
    let '(exist_, existHTTPS) := acc in
    if String.eqb (LoadBalancerService.Name (LoadBalancerModel.Service lbItem)) ruleName
    then (true, existHTTPS)
    else if String.eqb (LoadBalancerService.Name (LoadBalancerModel.Service lbItem))
                       ruleNameHTTPS
    then (exist_, true)
    else (exist_, existHTTPS))
    items (false, false).

(** [if cond { if err := DeleteByName(name); ... { log } }]: the answer is
    only logged. *)
Definition deleteIf (r : LoxilbIngressReconciler) (cond : bool) (name : string) : M unit :=
  if cond then (DeleteByName r name ;;; ret tt) else ret tt.

(** The loop over [applyModels] that installs the rules. *)
Fixpoint applyLoop (r : LoxilbIngressReconciler) (applyModels : list LoadBalancerModel.t)
  : M (option error) :=
  match applyModels with
  | [] => ret None
  | model :: rest =>
      err <- Create r model ;;
      match err with
      | Some e =>
          if negb (String.eqb (Error e) "lbrule-exists error")
          then ret (Some e)
          else applyLoop r rest
      | None => applyLoop r rest
      end
  end.

Definition Reconcile (r : LoxilbIngressReconciler) (req : ctrl.Request)
  : M (ctrl.Result * option error) :=
  let ruleName := Sprintf_s_s (NamespacedName.Namespace req) (NamespacedName.Name req) in
  let ruleNameHTTPS :=
    NamespacedName.Namespace req +:+ "_" +:+ NamespacedName.Name req +:+ "_https" in
  currLBList <- List r ;;
  match currLBList with
  | inr err => ret ({| ctrl.RequeueAfter := 0 |}, Some err)
  | inl items =>
      let '(exist_, existHTTPS) := existScan ruleName ruleNameHTTPS items in
      match Get_Ingress r req with
      | inr err =>
          if IsNotFound err
          then
            deleteIf r exist_ ruleName ;;;
            deleteIf r existHTTPS ruleNameHTTPS ;;;
            ret ({| ctrl.RequeueAfter := 0 |}, None)
          else ret ({| ctrl.RequeueAfter := 0 |}, Some err)
      | inl ingress =>
          let '(models, err) :=
            match Ingress.Annotations ingress !! "loxilb.io/direct-loadbalance-service" with
            | Some _ => createDirectLoxiModelList r ingress
            | None => createLoxiModelList r ingress
            end in
          match err with
          | Some e =>
              deleteIf r exist_ ruleName ;;;
              deleteIf r existHTTPS ruleNameHTTPS ;;;
              ret ({| ctrl.RequeueAfter := 0 |}, Some e)
          | None =>
              let applyModels := diffModels models items in
              if (length applyModels <=? 0)%nat
              then ret ({| ctrl.RequeueAfter := 30 * Second |}, None)
              else
                err <- applyLoop r applyModels ;;
                match err with
                | Some e => ret ({| ctrl.RequeueAfter := 0 |}, Some e)
                | None =>
                    updateIngressStatus r ingress ;;;
                    ret ({| ctrl.RequeueAfter := 30 * Second |}, None)
                end
          end
      end
  end.

(** ** A remote rule store that carries out the calls

    The load balancer is outside the repository. For the statements that
    speak of what is left in it, [storeAfter] replays a history on a store
    that holds rule models: [DeleteByName] drops every rule of that name and
    [Create] installs the model in place of the rules of the same name. *)
Definition nameIs (name : string) (m : LoadBalancerModel.t) : bool :=
  String.eqb (LoadBalancerService.Name (LoadBalancerModel.Service m)) name.

Definition storeStep (store : list LoadBalancerModel.t) (c : Call) : list LoadBalancerModel.t :=
  match c with
  | CallDeleteByName name => List.filter (fun m => negb (nameIs name m)) store
  | CallCreate model =>
      List.filter (fun m =>
        negb (nameIs (LoadBalancerService.Name (LoadBalancerModel.Service model)) m)) store
      ++ [model]
  | CallList | CallStatusUpdate _ => store
  end.

Definition storeAfter (store : list LoadBalancerModel.t) (h : list Call)
  : list LoadBalancerModel.t :=
  fold_left storeStep h store.

Definition installed (name : string) (store : list LoadBalancerModel.t) : bool :=
  existsb (nameIs name) store.

(** ** The path-routed builder, model by model

    What one model of [createLoxiModelList] is made of, for the statements
    below. *)

(** The service half of the models of one rule: it depends on the rule's
    host only, not on the path or its backend. *)
Definition ruleService (r : LoxilbIngressReconciler) (ingress : Ingress.t)
    (rule : IngressRule.t) : LoadBalancerService.t :=
  let security :=
    if checkTLSHost (IngressRule.Host rule) (Ingress.TLS ingress) then 1%Z else 0%Z in
  createLoxiLoadBalancerService (Ingress.Namespace ingress)
    (if (security =? 1)%Z then Ingress.Name ingress +:+ "_https" else Ingress.Name ingress)
    (LoxiClient_Host r) security (IngressRule.Host rule).

(** The endpoint half: the resolver at the backend's namespace, name and
    declared port number. *)
Definition backendEndpoints (r : LoxilbIngressReconciler) (ingress : Ingress.t)
    (service : IngressServiceBackend.t) : list LoadBalancerEndpoint.t * option error :=
  createLoxiLoadBalancerEndpointsWithTargetPort r
    (getBackendServiceNamespace ingress (IngressServiceBackend.Name service))
    (IngressServiceBackend.Name service)
    (ServiceBackendPort.Number (IngressServiceBackend.Port service)).

(** [m] is the model of some service backend among [paths] of [rule]. *)
Definition builtFrom (r : LoxilbIngressReconciler) (ingress : Ingress.t)
    (rule : IngressRule.t) (paths : list HTTPIngressPath.t) (m : LoadBalancerModel.t) : Prop :=
  exists path service loxiep,
    In path paths /\
    IngressBackend.Service (HTTPIngressPath.Backend path) = Some service /\
    backendEndpoints r ingress service = (loxiep, None) /\
    m = {| LoadBalancerModel.Service := ruleService r ingress rule;
           LoadBalancerModel.Endpoints := loxiep |}.

(** The address list the resolver reads off an [Endpoints] object: every
    address of every subset, in order. The port records of the subsets are
    not part of it. *)
Definition readyAddresses (ep : Endpoints.t) : list string :=
  flat_map (fun subset => map EndpointAddress.IP (EndpointSubset.Addresses subset))
           (Endpoints.Subsets ep).

Definition endpointAt (targetPort : Z) (ip : string) : LoadBalancerEndpoint.t :=
  {| LoadBalancerEndpoint.EndpointIP := ip;
     LoadBalancerEndpoint.TargetPort := uint16 targetPort;
     LoadBalancerEndpoint.Weight := 1 |}.

Definition backendKey (ingress : Ingress.t) (service : IngressServiceBackend.t)
  : NamespacedName.t :=
  {| NamespacedName.Namespace :=
       getBackendServiceNamespace ingress (IngressServiceBackend.Name service);
     NamespacedName.Name := IngressServiceBackend.Name service |}.

(** The service backends of an ingress in the order the builder meets them,
    each with its rule: rules without HTTP section and paths without service
    backend contribute none. *)
Definition backendsOf (ingress : Ingress.t) : list (IngressRule.t * IngressServiceBackend.t) :=
  flat_map (fun rule =>
    match IngressRule.HTTP rule with
    | None => []
    | Some http =>
        flat_map (fun path =>
          match IngressBackend.Service (HTTPIngressPath.Backend path) with
          | None => []
          | Some service => [(rule, service)]
          end) (HTTPIngressRuleValue.Paths http)
    end) (Ingress.Rules ingress).

(** The (address, target port) pairs of a model's endpoints, the part of an
    endpoint the differ looks at. *)
Definition pairOf (e : LoadBalancerEndpoint.t) : string * Z :=
  (LoadBalancerEndpoint.EndpointIP e, LoadBalancerEndpoint.TargetPort e).

Definition pairs (m : LoadBalancerModel.t) : list (string * Z) :=
  map pairOf (LoadBalancerModel.Endpoints m).

Definition keyOf (m : LoadBalancerModel.t) : string :=
  LoadBalancerService.Name (LoadBalancerModel.Service m).

(** The two loops of [createLoxiModelList] as one loop over [backendsOf]. *)
Fixpoint backendsLoop (r : LoxilbIngressReconciler) (ingress : Ingress.t)
    (bs : list (IngressRule.t * IngressServiceBackend.t)) (models : list LoadBalancerModel.t)
  : list LoadBalancerModel.t * option error :=
  match bs with
  | [] => (models, None)
  | (rule, service) :: rest =>
      match backendEndpoints r ingress service with
      | (_, Some err) => (models, Some err)
      | (loxiep, None) =>
          backendsLoop r ingress rest
            (models ++ [{| LoadBalancerModel.Service := ruleService r ingress rule;
                           LoadBalancerModel.Endpoints := loxiep |}])
      end
  end.

(** The namespace the direct builder looks the target service up in. *)
Definition directNamespace (ingress : Ingress.t) : string :=
  match Ingress.Annotations ingress !! "loxilb.io/direct-loadbalance-namespace" with
  | Some svcNs => svcNs
  | None => Ingress.Namespace ingress
  end.

(** ** The pass, piece by piece

    Names for the parts of [Reconcile] the statements below speak of. *)

Definition ruleNameOf (req : ctrl.Request) : string :=
  Sprintf_s_s (NamespacedName.Namespace req) (NamespacedName.Name req).

Definition ruleNameHTTPSOf (req : ctrl.Request) : string :=
  NamespacedName.Namespace req +:+ "_" +:+ NamespacedName.Name req +:+ "_https".

(** The [DeleteByName] calls of the deletion branch and of the roll-back: one
    for each of the two keys that the snapshot holds. *)
Definition deleteCalls (req : ctrl.Request) (items : list LoadBalancerModel.t) : list Call :=
  (if installed (ruleNameOf req) items then [CallDeleteByName (ruleNameOf req)] else [])
  ++ (if installed (ruleNameHTTPSOf req) items
      then [CallDeleteByName (ruleNameHTTPSOf req)] else []).

(** The choice between the two builders. *)
Definition buildModels (r : LoxilbIngressReconciler) (ingress : Ingress.t)
  : list LoadBalancerModel.t * option error :=
  match Ingress.Annotations ingress !! "loxilb.io/direct-loadbalance-service" with
  | Some _ => createDirectLoxiModelList r ingress
  | None => createLoxiModelList r ingress
  end.

(** The store answers the [Create] of [model] after history [h] with success
    or with the already-exists error. *)
Definition swallowed (r : LoxilbIngressReconciler) (h : list Call)
    (model : LoadBalancerModel.t) : Prop :=
  LoadBalancer_Create r h model = None \/
  exists e, LoadBalancer_Create r h model = Some e /\ Error e = "lbrule-exists error".

Definition noResult : ctrl.Result := {| ctrl.RequeueAfter := 0 |}.
Definition requeue30 : ctrl.Result := {| ctrl.RequeueAfter := 30 * Second |}.

(** ** Worked scenarios

    Concrete clusters on which the statements below are run. *)

Module Scenario.

Definition key (ns name : string) : NamespacedName.t :=
  {| NamespacedName.Namespace := ns; NamespacedName.Name := name |}.

Definition keyIs (ns name : string) (k : NamespacedName.t) : bool :=
  String.eqb (NamespacedName.Namespace k) ns && String.eqb (NamespacedName.Name k) name.

Definition notFound : error := {| IsNotFound := true; Error := "not found" |}.

Definition backend (name : string) (port : Z) : IngressBackend.t :=
  {| IngressBackend.Service :=
       Some {| IngressServiceBackend.Name := name;
               IngressServiceBackend.Port :=
                 {| ServiceBackendPort.Name := ""; ServiceBackendPort.Number := port |} |} |}.

(** A reconciler over a cluster given by its lookups, in front of a remote
    store that reports [snapshot] and accepts every call. *)
Definition cluster
    (ingresses : NamespacedName.t -> option Ingress.t)
    (endpoints : NamespacedName.t -> option Endpoints.t)
    (services : NamespacedName.t -> option Service.t)
    (pods : list Pod.t)
    (snapshot : list LoadBalancerModel.t) : LoxilbIngressReconciler :=
  {| Get_Ingress := fun k => match ingresses k with Some o => inl o | None => inr notFound end;
     Get_Endpoints := fun k => match endpoints k with Some o => inl o | None => inr notFound end;
     Get_Service := fun k => match services k with Some o => inl o | None => inr notFound end;
     List_Pods := fun _ => inl pods;
     LoxiClient_Host := "192.168.59.10";
     LoadBalancer_List := fun _ => inl snapshot;
     LoadBalancer_Create := fun _ _ => None;
     LoadBalancer_DeleteByName := fun _ _ => None;
     Status_Update := fun _ _ => None |}.

(** *** Ingress [ns/app]: a plaintext host, a rule without HTTP section and a
    TLS host, all on backend [svc:8080] *)

Definition pathTo (path name : string) (port : Z) : HTTPIngressPath.t :=
  {| HTTPIngressPath.Path := path; HTTPIngressPath.Backend := backend name port |}.

Definition app : Ingress.t :=
  {| Ingress.Namespace := "ns";
     Ingress.Name := "app";
     Ingress.Annotations := <["loadbalancer-service" := "lb"]> ∅;
     Ingress.Rules :=
       [ {| IngressRule.Host := "a.com";
            IngressRule.HTTP :=
              Some {| HTTPIngressRuleValue.Paths := [pathTo "/" "svc" 8080] |} |};
         {| IngressRule.Host := "c.com"; IngressRule.HTTP := None |};
         {| IngressRule.Host := "b.com";
            IngressRule.HTTP :=
              Some {| HTTPIngressRuleValue.Paths := [pathTo "/api" "svc" 8080] |} |} ];
     Ingress.TLS := [ {| IngressTLS.Hosts := ["b.com"]; IngressTLS.SecretName := "cert" |} ];
     Ingress.StatusIngress :=
       [ {| IngressLoadBalancerIngress.IP := "203.0.113.7";
            IngressLoadBalancerIngress.Hostname := "";
            IngressLoadBalancerIngress.Ports := [] |} ] |}.

(** The endpoints of [ns/svc]: two ready addresses; the subset's only port
    record is 9090, not the 8080 the ingress declares. *)
Definition svcEndpoints : Endpoints.t :=
  {| Endpoints.Subsets :=
       [ {| EndpointSubset.Addresses :=
              [ {| EndpointAddress.IP := "10.0.0.5" |}; {| EndpointAddress.IP := "10.0.0.6" |} ];
            EndpointSubset.Ports :=
              [ {| EndpointPort.Name := "http"; EndpointPort.Port := 9090 |} ] |} ] |}.

(** The status source [default/lb]: one address, already on the ingress. *)
Definition lbService : Service.t :=
  {| Service.Name := "lb";
     Service.Ports := [];
     Service.Selector := ∅;
     Service.StatusIngress :=
       [ {| LoadBalancerIngress.IP := "203.0.113.7";
            LoadBalancerIngress.Hostname := "";
            LoadBalancerIngress.Ports := [] |} ] |}.

Definition web : LoxilbIngressReconciler :=
  cluster (fun k => if keyIs "ns" "app" k then Some app else None)
          (fun k => if keyIs "ns" "svc" k then Some svcEndpoints else None)
          (fun k => if keyIs "default" "lb" k then Some lbService else None)
          [] [].

Definition ep (ip : string) (port : Z) : LoadBalancerEndpoint.t :=
  {| LoadBalancerEndpoint.EndpointIP := ip;
     LoadBalancerEndpoint.TargetPort := port;
     LoadBalancerEndpoint.Weight := 1 |}.

Definition rule (name : string) (port security : Z) (host : string)
    (eps : list LoadBalancerEndpoint.t) : LoadBalancerModel.t :=
  {| LoadBalancerModel.Service :=
       {| LoadBalancerService.ExternalIP := "192.168.59.10";
          LoadBalancerService.Port := port;
          LoadBalancerService.Protocol := "tcp";
          LoadBalancerService.Sel := LbSelRr;
          LoadBalancerService.Mode := 4;
          LoadBalancerService.Security := security;
          LoadBalancerService.Name := name;
          LoadBalancerService.Host := host |};
     LoadBalancerModel.Endpoints := eps |}.

(** A desired model that lists one endpoint twice, and a snapshot rule of the
    same key and length that holds a second, different endpoint. *)
Definition twice : LoadBalancerModel.t :=
  rule "ns_app" 80 0 "a.com" [ep "10.0.0.5" 8080; ep "10.0.0.5" 8080].

Definition stale : LoadBalancerModel.t :=
  rule "ns_app" 80 0 "a.com" [ep "10.0.0.5" 8080; ep "10.0.0.9" 8080].

Definition appPlain : LoadBalancerModel.t :=
  rule "ns_app" 80 0 "a.com" [ep "10.0.0.5" 8080; ep "10.0.0.6" 8080].

Definition appHTTPS : LoadBalancerModel.t :=
  rule "ns_app_https" 443 1 "b.com" [ep "10.0.0.5" 8080; ep "10.0.0.6" 8080].

(** *** The ingress [ns/app] is gone

    The load balancer holds both rules of [ns/app]; its listing reports the
    plain one only. *)
Definition gone : LoxilbIngressReconciler :=
  cluster (fun _ => None) (fun _ => None) (fun _ => None) [] [appPlain].

Definition remoteBefore : list LoadBalancerModel.t := [appPlain; appHTTPS].

(** *** [ns/app] in front of a store that refuses

    The store answers the create of [ns_app] with the already-exists error
    and every other create with a transport error. *)
Definition withCreate (r : LoxilbIngressReconciler)
    (create : list Call -> LoadBalancerModel.t -> option error) : LoxilbIngressReconciler :=
  {| Get_Ingress := Get_Ingress r;
     Get_Endpoints := Get_Endpoints r;
     Get_Service := Get_Service r;
     List_Pods := List_Pods r;
     LoxiClient_Host := LoxiClient_Host r;
     LoadBalancer_List := LoadBalancer_List r;
     LoadBalancer_Create := create;
     LoadBalancer_DeleteByName := LoadBalancer_DeleteByName r;
     Status_Update := Status_Update r |}.

Definition refused : error := Errorf "connection refused".

Definition busy : LoxilbIngressReconciler :=
  withCreate web (fun _ m =>
    if nameIs "ns_app" m then Some (Errorf "lbrule-exists error") else Some refused).

(** *** [ns/app] when [svc] has no ready address

    The endpoints object of [ns/svc] exists and lists no address; the plain
    rule is still installed from an earlier pass. *)
Definition noAddresses : Endpoints.t :=
  {| Endpoints.Subsets :=
       [ {| EndpointSubset.Addresses := [];
            EndpointSubset.Ports :=
              [ {| EndpointPort.Name := "http"; EndpointPort.Port := 8080 |} ] |} ] |}.

Definition idle : LoxilbIngressReconciler :=
  cluster (fun k => if keyIs "ns" "app" k then Some app else None)
          (fun k => if keyIs "ns" "svc" k then Some noAddresses else None)
          (fun k => if keyIs "default" "lb" k then Some lbService else None)
          [] [appPlain].

(** *** Direct mode: ingress [ns/app] pointing at service [ns2/svc2]

    [svc2] exposes port 9090 with the named target port [web]; one pod has a
    container port [web] = 9090; the service has one ready address. *)
Definition appDirect : Ingress.t :=
  {| Ingress.Namespace := "ns";
     Ingress.Name := "app";
     Ingress.Annotations :=
       <["loxilb.io/direct-loadbalance-service" := "svc2"]>
         (<["loxilb.io/direct-loadbalance-namespace" := "ns2"]> ∅);
     Ingress.Rules := [];
     Ingress.TLS := [];
     Ingress.StatusIngress := [] |}.

Definition svc2 : Service.t :=
  {| Service.Name := "svc2";
     Service.Ports :=
       [ {| ServicePort.Protocol := "TCP";
            ServicePort.Port := 9090;
            ServicePort.TargetPort := IntOrString.Str "web" |} ];
     Service.Selector := <["app" := "web"]> ∅;
     Service.StatusIngress := [] |}.

Definition webPod : Pod.t :=
  {| Pod.Containers :=
       [ {| Container.Ports :=
              [ {| ContainerPort.Name := "web"; ContainerPort.ContainerPort := 9090 |} ] |} ] |}.

Definition svc2Endpoints : Endpoints.t :=
  {| Endpoints.Subsets :=
       [ {| EndpointSubset.Addresses := [ {| EndpointAddress.IP := "10.0.1.4" |} ];
            EndpointSubset.Ports :=
              [ {| EndpointPort.Name := "web"; EndpointPort.Port := 9090 |} ] |} ] |}.

Definition direct : LoxilbIngressReconciler :=
  cluster (fun k => if keyIs "ns" "app" k then Some appDirect else None)
          (fun k => if keyIs "ns2" "svc2" k then Some svc2Endpoints else None)
          (fun k => if keyIs "ns2" "svc2" k then Some svc2 else None)
          [webPod] [].

(** The one model the direct builder returns there. *)
Definition directRule : LoadBalancerModel.t :=
  {| LoadBalancerModel.Service :=
       {| LoadBalancerService.ExternalIP := "0.0.0.0";
          LoadBalancerService.Port := 9090;
          LoadBalancerService.Protocol := "tcp";
          LoadBalancerService.Sel := LbSelRr;
          LoadBalancerService.Mode := 4;
          LoadBalancerService.Security := 0;
          LoadBalancerService.Name := "ns2_app";
          LoadBalancerService.Host := "" |};
     LoadBalancerModel.Endpoints := [ep "10.0.1.4" 9090] |}.

(** The same cluster after the ingress was removed, the rule still installed. *)
Definition directGone : LoxilbIngressReconciler :=
  cluster (fun _ => None)
          (fun k => if keyIs "ns2" "svc2" k then Some svc2Endpoints else None)
          (fun k => if keyIs "ns2" "svc2" k then Some svc2 else None)
          [webPod] [directRule].

End Scenario.

(** ** The rest of [managers/ingress.go] and [pkg/net.go] *)

(** [createLoxiLoadBalancerEndpoints]: the resolver that takes the target
    port from the port records of each subset, one endpoint per address and
    port record of the same subset. *)
Definition endpointsOfPorts (ep : Endpoints.t) : list LoadBalancerEndpoint.t :=
  flat_map (fun subset =>
    flat_map (fun addr =>
      map (fun port =>
        {| LoadBalancerEndpoint.EndpointIP := EndpointAddress.IP addr;
           LoadBalancerEndpoint.TargetPort := uint16 (EndpointPort.Port port);
           LoadBalancerEndpoint.Weight := 1 |})
        (EndpointSubset.Ports subset))
      (EndpointSubset.Addresses subset))
    (Endpoints.Subsets ep).

Definition createLoxiLoadBalancerEndpoints
    (r : LoxilbIngressReconciler) (ns name : string)
  : list LoadBalancerEndpoint.t * option error :=
  let key := {| NamespacedName.Namespace := ns; NamespacedName.Name := name |} in
  match Get_Endpoints r key with
  | inr err => ([], Some err)
  | inl ep =>
      let loxilbEpList := endpointsOfPorts ep in
      if (length loxilbEpList <=? 0)%nat
      then (loxilbEpList, Some (noEndpointsError ns name))
      else (loxilbEpList, None)
  end.

(** The model the path-routed builder appends for one service backend. *)
Definition backendModel (r : LoxilbIngressReconciler) (ingress : Ingress.t)
    (b : IngressRule.t * IngressServiceBackend.t) : LoadBalancerModel.t :=
  {| LoadBalancerModel.Service := ruleService r ingress (fst b);
     LoadBalancerModel.Endpoints := fst (backendEndpoints r ingress (snd b)) |}.

(** The selection policy string of the direct builder. *)
Definition directSelStr (ingress : Ingress.t) : string :=
  match Ingress.Annotations ingress !! "loxilb.io/epselect" with
  | Some selStr => selStr
  | None => pkg.EndPointSel_RR
  end.

(** The service half of the model the direct builder appends for one port. *)
Definition directService (ingress : Ingress.t) (port : ServicePort.t) : LoadBalancerService.t :=
  createDirectLoxiLoadBalancerService (directNamespace ingress) (Ingress.Name ingress)
    "0.0.0.0" (ServicePort.Protocol port) "" (directSelStr ingress) (ServicePort.Port port).

(** *** [pkg/net.go] *)

Module net.
(** [net.IP]: a byte slice; 4 bytes for IPv4, 16 for IPv6. *)
Definition IP : Type := list Z.

(** [net.Addr] as [InterfaceAddrs] returns it: an [*IPNet] or something else. *)
Inductive Addr :=
| IPNet (ip : IP) (mask : list Z)
| IPAddr (ip : IP) (zone : string).

(** [ip.To4()]: the address itself when it has 4 bytes, the last 4 bytes of
    an IPv4-mapped 16-byte address, nil otherwise. *)
Definition To4 (ip : IP) : option IP :=
  if (length ip =? 4)%nat then Some ip
  else if (length ip =? 16)%nat
          && forallb (fun b => (b =? 0)%Z) (firstn 10 ip)
          && (nth 10 ip 0 =? 255)%Z && (nth 11 ip 0 =? 255)%Z
  then Some (skipn 12 ip)
  else None.

Definition IPv6loopback : IP := [0; 0; 0; 0; 0; 0; 0; 0; 0; 0; 0; 0; 0; 0; 0; 1]%Z.

Fixpoint bytesEqual (a b : IP) : bool :=
  match a, b with
  | [], [] => true
  | x :: a', y :: b' => (x =? y)%Z && bytesEqual a' b'
  | _, _ => false
  end.

(** [ip.IsLoopback()] *)
Definition IsLoopback (ip : IP) : bool :=
  match To4 ip with
  | Some ip4 => (nth 0 ip4 0 =? 127)%Z
  | None => bytesEqual ip IPv6loopback
  end.

(** [ip.String()] of an address that has an IPv4 form: dotted decimal. *)
Definition dotted (ip4 : IP) : string :=
  Itoa (nth 0 ip4 0%Z) +:+ "." +:+ Itoa (nth 1 ip4 0%Z) +:+ "."
  +:+ Itoa (nth 2 ip4 0%Z) +:+ "." +:+ Itoa (nth 3 ip4 0%Z).
End net.

(** The loop of [GetLocalNonLoopBackIP] over the interface addresses. *)
Fixpoint firstNonLoopBackIPv4 (addrs : list net.Addr) : option string :=
  match addrs with
  | [] => None
  | address :: rest =>
      match address with
      | net.IPNet ip _ =>
          if negb (net.IsLoopback ip)
          then match net.To4 ip with
               | Some ip4 => Some (net.dotted ip4)
               | None => firstNonLoopBackIPv4 rest
               end
          else firstNonLoopBackIPv4 rest
      | net.IPAddr _ _ => firstNonLoopBackIPv4 rest
      end
  end.

(** [GetLocalNonLoopBackIP], over what [net.InterfaceAddrs()] answered. *)
Definition GetLocalNonLoopBackIP (interfaceAddrs : list net.Addr + error)
  : string * option error :=
  match interfaceAddrs with
  | inr _ => ("", Some (Errorf "no addresses found"))
  | inl addrs =>
      match firstNonLoopBackIPv4 addrs with
      | Some s => (s, None)
      | None => ("", Some (Errorf "non-lo addresses not found"))
      end
  end.

(** An address the function accepts: a non-loopback [*IPNet] with an IPv4
    form. *)
Definition usable (address : net.Addr) : bool :=
  match address with
  | net.IPNet ip _ => negb (net.IsLoopback ip)
      && match net.To4 ip with Some _ => true | None => false end
  | net.IPAddr _ _ => false
  end.

(** ** Further scenarios *)

Module Cases.

(** [ns/app] when the load balancer already holds both rules, the plain one
    with its endpoints in the other order and under another host. *)
Definition converged : LoxilbIngressReconciler :=
  Scenario.cluster
    (fun k => if Scenario.keyIs "ns" "app" k then Some Scenario.app else None)
    (fun k => if Scenario.keyIs "ns" "svc" k then Some Scenario.svcEndpoints else None)
    (fun k => if Scenario.keyIs "default" "lb" k then Some Scenario.lbService else None)
    []
    [ Scenario.rule "ns_app" 8080 0 "old.example.com"
        [Scenario.ep "10.0.0.6" 8080; Scenario.ep "10.0.0.5" 8080];
      Scenario.appHTTPS ].

(** A cluster whose load balancer cannot be listed. *)
Definition unreachable : LoxilbIngressReconciler :=
  {| Get_Ingress := Get_Ingress Scenario.web;
     Get_Endpoints := Get_Endpoints Scenario.web;
     Get_Service := Get_Service Scenario.web;
     List_Pods := List_Pods Scenario.web;
     LoxiClient_Host := LoxiClient_Host Scenario.web;
     LoadBalancer_List := fun _ => inr Scenario.refused;
     LoadBalancer_Create := LoadBalancer_Create Scenario.web;
     LoadBalancer_DeleteByName := LoadBalancer_DeleteByName Scenario.web;
     Status_Update := Status_Update Scenario.web |}.

(** Direct mode when the target service [ns2/svc2] does not exist; the rule
    [ns_app] is installed. *)
Definition directNoService : LoxilbIngressReconciler :=
  Scenario.cluster
    (fun k => if Scenario.keyIs "ns" "app" k then Some Scenario.appDirect else None)
    (fun _ => None) (fun _ => None) [] [Scenario.appPlain].

(** A status source with a new address, then the same address again, then an
    entry that has neither address nor hostname. *)
Definition lbAddresses : list LoadBalancerIngress.t :=
  [ {| LoadBalancerIngress.IP := "198.51.100.4";
       LoadBalancerIngress.Hostname := "";
       LoadBalancerIngress.Ports :=
         [ {| PortStatus.Port := 80; PortStatus.Protocol := "TCP";
              PortStatus.Error := None |} ] |};
    {| LoadBalancerIngress.IP := "198.51.100.4";
       LoadBalancerIngress.Hostname := "lb.example.com";
       LoadBalancerIngress.Ports := [] |} ].

Definition blank : LoadBalancerIngress.t :=
  {| LoadBalancerIngress.IP := "";
     LoadBalancerIngress.Hostname := "";
     LoadBalancerIngress.Ports := [] |}.

(** An endpoints object with two subsets: two addresses on two ports, and
    one address without any port record. *)
Definition twoSubsets : Endpoints.t :=
  {| Endpoints.Subsets :=
       [ {| EndpointSubset.Addresses :=
              [ {| EndpointAddress.IP := "10.0.0.5" |}; {| EndpointAddress.IP := "10.0.0.6" |} ];
            EndpointSubset.Ports :=
              [ {| EndpointPort.Name := "http"; EndpointPort.Port := 8080 |};
                {| EndpointPort.Name := "metrics"; EndpointPort.Port := 9100 |} ] |};
         {| EndpointSubset.Addresses := [ {| EndpointAddress.IP := "10.0.0.7" |} ];
            EndpointSubset.Ports := [] |} ] |}.

Definition twoSubsetsCluster : LoxilbIngressReconciler :=
  Scenario.cluster (fun _ => None)
    (fun k => if Scenario.keyIs "ns" "svc" k then Some twoSubsets else None)
    (fun _ => None) [] [].

(** The interface addresses of a pod: loopback, an IPv6 address, the pod's
    IPv4 address, and a second IPv4 address. *)
Definition podAddrs : list net.Addr :=
  [ net.IPNet [127; 0; 0; 1]%Z [255; 0; 0; 0]%Z;
    net.IPNet [254; 128; 0; 0; 0; 0; 0; 0; 0; 0; 0; 0; 0; 0; 0; 1]%Z [];
    net.IPNet [10; 244; 1; 17]%Z [255; 255; 255; 0]%Z;
    net.IPNet [192; 168; 0; 2]%Z [255; 255; 255; 0]%Z ].

(** [ns/app] after its rules were emptied: one rule without HTTP section and
    one path without service backend; the plain rule is still installed. *)
Definition bare : Ingress.t :=
  Ingress.withRules Scenario.app
    [ {| IngressRule.Host := "c.com"; IngressRule.HTTP := None |};
      {| IngressRule.Host := "a.com";
         IngressRule.HTTP :=
           Some {| HTTPIngressRuleValue.Paths :=
                     [ {| HTTPIngressPath.Path := "/";
                          HTTPIngressPath.Backend :=
                            {| IngressBackend.Service := None |} |} ] |} |} ].

Definition bareCluster : LoxilbIngressReconciler :=
  Scenario.cluster
    (fun k => if Scenario.keyIs "ns" "app" k then Some bare else None)
    (fun _ => None) (fun _ => None) [] [Scenario.appPlain].

(** The status source [default/lb] with the two entries of [lbAddresses]. *)
Definition lbService2 : Service.t :=
  {| Service.Name := "lb";
     Service.Ports := [];
     Service.Selector := ∅;
     Service.StatusIngress := lbAddresses |}.

Definition statusCluster : LoxilbIngressReconciler :=
  Scenario.cluster
    (fun k => if Scenario.keyIs "ns" "app" k then Some Scenario.app else None)
    (fun _ => None)
    (fun k => if Scenario.keyIs "default" "lb" k then Some lbService2 else None)
    [] [].

(** [ns/app] with one plaintext rule on [svc:8080], no TLS block and no
    status source. *)
Definition single : Ingress.t :=
  {| Ingress.Namespace := "ns";
     Ingress.Name := "app";
     Ingress.Annotations := ∅;
     Ingress.Rules :=
       [ {| IngressRule.Host := "a.com";
            IngressRule.HTTP :=
              Some {| HTTPIngressRuleValue.Paths := [Scenario.pathTo "/" "svc" 8080] |} |} ];
     Ingress.TLS := [];
     Ingress.StatusIngress := [] |}.

(** The endpoints of [ns/svc] when the one ready address 10.0.0.5 is listed
    in two subsets (one per port set); the address 10.0.0.9 that the load
    balancer still holds is gone. *)
Definition repeatedEndpoints : Endpoints.t :=
  {| Endpoints.Subsets :=
       [ {| EndpointSubset.Addresses := [ {| EndpointAddress.IP := "10.0.0.5" |} ];
            EndpointSubset.Ports :=
              [ {| EndpointPort.Name := "http"; EndpointPort.Port := 8080 |} ] |};
         {| EndpointSubset.Addresses := [ {| EndpointAddress.IP := "10.0.0.5" |} ];
            EndpointSubset.Ports :=
              [ {| EndpointPort.Name := "metrics"; EndpointPort.Port := 9100 |} ] |} ] |}.

Definition repeated : LoxilbIngressReconciler :=
  Scenario.cluster
    (fun k => if Scenario.keyIs "ns" "app" k then Some single else None)
    (fun k => if Scenario.keyIs "ns" "svc" k then Some repeatedEndpoints else None)
    (fun _ => None) [] [Scenario.stale].

(** [ns/app] when the load balancer holds the plain rule only (endpoints in
    the other order, another host) and not the TLS rule. *)
Definition halfSettled : LoxilbIngressReconciler :=
  Scenario.cluster
    (fun k => if Scenario.keyIs "ns" "app" k then Some Scenario.app else None)
    (fun k => if Scenario.keyIs "ns" "svc" k then Some Scenario.svcEndpoints else None)
    (fun k => if Scenario.keyIs "default" "lb" k then Some Scenario.lbService else None)
    []
    [ Scenario.rule "ns_app" 8080 0 "old.example.com"
        [Scenario.ep "10.0.0.6" 8080; Scenario.ep "10.0.0.5" 8080] ].

End Cases.

(** * Properties *)

(** ** Strings and identity keys *)

Lemma append_length (a b : string) :
  String.length (a +:+ b) = (String.length a + String.length b)%nat.
Proof.
  induction a as [|c a IH]; [reflexivity |].
  change (String c a +:+ b) with (String c (a +:+ b)). simpl. now rewrite IH.
Qed.

(** The two identity keys of one request never coincide. *)
Lemma ruleName_neq_HTTPS (ns name : string) :
  Sprintf_s_s ns name <> ns +:+ "_" +:+ name +:+ "_https".
Proof.
  unfold Sprintf_s_s. intros H.
  apply String.app_inj, String.app_inj in H.
  apply (f_equal String.length) in H. rewrite append_length in H. simpl in H. lia.
Qed.

(** ** The path-routed builder, model by model *)

Section PathRouted.
Variable r : LoxilbIngressReconciler.
Variable ingress : Ingress.t.

Lemma pathsLoop_In rule paths : forall models res err m,
  pathsLoop r ingress rule paths models = (res, err) ->
  In m res -> In m models \/ builtFrom r ingress rule paths m.
Proof.
  induction paths as [|path rest IH]; intros models res err m Hrun Hin; simpl in Hrun.
  - injection Hrun as <- _. now left.
  - destruct (IngressBackend.Service (HTTPIngressPath.Backend path)) as [service|] eqn:Hsvc.
    + destruct (createLoxiLoadBalancerEndpointsWithTargetPort r _ _ _)
        as [loxiep [e|]] eqn:Hep.
      * injection Hrun as <- _. now left.
      * destruct (IH _ _ _ _ Hrun Hin) as [Hold | (p & s & l & Hp & Hs & Hl & ->)].
        -- apply in_app_or in Hold as [Hold | [<- | []]]; [now left |].
           right. exists path, service, loxiep. repeat split; auto. now left.
        -- right. exists p, s, l. repeat split; auto. now right.
    + destruct (IH _ _ _ _ Hrun Hin) as [Hold | (p & s & l & Hp & Hs & Hl & ->)].
      * now left.
      * right. exists p, s, l. repeat split; auto. now right.
Qed.

Lemma rulesLoop_In rules : forall models res err m,
  rulesLoop r ingress rules models = (res, err) ->
  In m res ->
  In m models \/
  exists rule http, In rule rules /\ IngressRule.HTTP rule = Some http /\
                    builtFrom r ingress rule (HTTPIngressRuleValue.Paths http) m.
Proof.
  induction rules as [|rule rest IH]; intros models res err m Hrun Hin; simpl in Hrun.
  - injection Hrun as <- _. now left.
  - destruct (IngressRule.HTTP rule) as [http|] eqn:Hhttp.
    + destruct (pathsLoop r ingress rule (HTTPIngressRuleValue.Paths http) models)
        as [models' [e|]] eqn:Hpaths.
      * injection Hrun as <- _.
        destruct (pathsLoop_In _ _ _ _ _ _ Hpaths Hin) as [Hold | Hb]; [now left |].
        right. exists rule, http. repeat split; auto. now left.
      * destruct (IH _ _ _ _ Hrun Hin) as [Hold | (rl & ht & Hr & Hh & Hb)].
        -- destruct (pathsLoop_In _ _ _ _ _ _ Hpaths Hold) as [Hold' | Hb]; [now left |].
           right. exists rule, http. repeat split; auto. now left.
        -- right. exists rl, ht. repeat split; auto. now right.
    + destruct (IH _ _ _ _ Hrun Hin) as [Hold | (rl & ht & Hr & Hh & Hb)]; [now left |].
      right. exists rl, ht. repeat split; auto. now right.
Qed.

(** Every model the path-routed builder returns, with or without an error,
    is the model of a service backend of a rule that has an HTTP section. *)
Lemma createLoxiModelList_In models err m :
  createLoxiModelList r ingress = (models, err) ->
  In m models ->
  exists rule http, In rule (Ingress.Rules ingress) /\ IngressRule.HTTP rule = Some http /\
                    builtFrom r ingress rule (HTTPIngressRuleValue.Paths http) m.
Proof.
  intros Hrun Hin. unfold createLoxiModelList in Hrun.
  destruct (rulesLoop_In _ _ _ _ _ Hrun Hin) as [[] | H]. exact H.
Qed.

End PathRouted.

(** The service half of a rule's models is decided by the security class of
    its host alone. *)
Lemma ruleService_fields r ingress rule :
  let tls := checkTLSHost (IngressRule.Host rule) (Ingress.TLS ingress) in
  LoadBalancerService.Name (ruleService r ingress rule)
    = (if tls
       then Ingress.Namespace ingress +:+ "_" +:+ Ingress.Name ingress +:+ "_https"
       else Sprintf_s_s (Ingress.Namespace ingress) (Ingress.Name ingress)) /\
  LoadBalancerService.Security (ruleService r ingress rule) = (if tls then 1 else 0)%Z /\
  LoadBalancerService.Port (ruleService r ingress rule) = (if tls then 443 else 80)%Z /\
  LoadBalancerService.Host (ruleService r ingress rule) = IngressRule.Host rule.
Proof.
  unfold ruleService. destruct (checkTLSHost _ _); simpl; auto.
Qed.

Example web_models :
  createLoxiModelList Scenario.web Scenario.app
  = ([Scenario.appPlain; Scenario.appHTTPS], None).
Proof. vm_compute. reflexivity. Qed.

(** ** C4: identity keys of the path-routed builder *)

(** C4. Every model the path-routed builder produces for an ingress [ns/name]
    carries one of the two identity keys [ns_name] and [ns_name_https]; which
    one is decided by the security class of the model's host alone (a host
    listed in a TLS block gets [_https], any other host the plain key), so
    hosts of the same class share a key and no third key appears. *)
Theorem path_routed_identity_keys r ingress models err m :
  createLoxiModelList r ingress = (models, err) ->
  In m models ->
  let ruleName := Sprintf_s_s (Ingress.Namespace ingress) (Ingress.Name ingress) in
  let ruleNameHTTPS :=
    Ingress.Namespace ingress +:+ "_" +:+ Ingress.Name ingress +:+ "_https" in
  let name := LoadBalancerService.Name (LoadBalancerModel.Service m) in
  (name = ruleName \/ name = ruleNameHTTPS) /\
  name = (if checkTLSHost (LoadBalancerService.Host (LoadBalancerModel.Service m))
                          (Ingress.TLS ingress)
          then ruleNameHTTPS else ruleName).
Proof.
  intros Hrun Hin.
  destruct (createLoxiModelList_In _ _ _ _ _ Hrun Hin)
    as (rule & http & _ & _ & path & service & loxiep & _ & _ & _ & ->).
  destruct (ruleService_fields r ingress rule) as (Hname & _ & _ & Hhost).
  cbn zeta in *. cbn [LoadBalancerModel.Service].
  rewrite Hhost, Hname. destruct (checkTLSHost _ _); auto.
Qed.

Lemma path_routed_identity_keys_witness :
  LoadBalancerService.Name (LoadBalancerModel.Service Scenario.appHTTPS) = "ns_app_https".
Proof.
  destruct (path_routed_identity_keys Scenario.web Scenario.app
              [Scenario.appPlain; Scenario.appHTTPS] None Scenario.appHTTPS) as [_ H].
  - vm_compute. reflexivity.
  - simpl. auto.
  - exact H.
Defined.

(** ** C8: exposed port of the path-routed builder *)

(** C8. Every model the path-routed builder produces is exposed on port 80
    with the security flag 0 (its host is in no TLS block), or on port 443
    with the security flag 1 (its host is in a TLS block); the port number
    the backend declares plays no part. *)
Theorem path_routed_exposed_port r ingress models err m :
  createLoxiModelList r ingress = (models, err) ->
  In m models ->
  let svc := LoadBalancerModel.Service m in
  (LoadBalancerService.Security svc = 0%Z /\ LoadBalancerService.Port svc = 80%Z /\
   checkTLSHost (LoadBalancerService.Host svc) (Ingress.TLS ingress) = false)
  \/
  (LoadBalancerService.Security svc = 1%Z /\ LoadBalancerService.Port svc = 443%Z /\
   checkTLSHost (LoadBalancerService.Host svc) (Ingress.TLS ingress) = true).
Proof.
  intros Hrun Hin.
  destruct (createLoxiModelList_In _ _ _ _ _ Hrun Hin)
    as (rule & http & _ & _ & path & service & loxiep & _ & _ & _ & ->).
  destruct (ruleService_fields r ingress rule) as (_ & Hsec & Hport & Hhost).
  cbn zeta in *. cbn [LoadBalancerModel.Service].
  rewrite Hhost, Hsec, Hport. destruct (checkTLSHost _ _); auto.
Qed.

Lemma path_routed_exposed_port_witness :
  LoadBalancerService.Port (LoadBalancerModel.Service Scenario.appPlain) = 80%Z /\
  LoadBalancerService.Port (LoadBalancerModel.Service Scenario.appHTTPS) = 443%Z.
Proof.
  split.
  - destruct (path_routed_exposed_port Scenario.web Scenario.app
                [Scenario.appPlain; Scenario.appHTTPS] None Scenario.appPlain)
      as [(_ & H & _) | (H & _)].
    + vm_compute. reflexivity.
    + simpl. auto.
    + exact H.
    + discriminate H.
  - destruct (path_routed_exposed_port Scenario.web Scenario.app
                [Scenario.appPlain; Scenario.appHTTPS] None Scenario.appHTTPS)
      as [(H & _) | (_ & H & _)].
    + vm_compute. reflexivity.
    + simpl. auto.
    + discriminate H.
    + exact H.
Defined.

(** ** The loops and the rule list *)

(** The loops read the namespace, name, annotations and TLS blocks of the
    ingress, never its rule list. *)
Lemma pathsLoop_withRules r ingress rules rule paths : forall models,
  pathsLoop r (Ingress.withRules ingress rules) rule paths models
  = pathsLoop r ingress rule paths models.
Proof.
  induction paths as [|path rest IH]; intros models; simpl; [reflexivity |].
  destruct (IngressBackend.Service (HTTPIngressPath.Backend path)); [| apply IH].
  unfold getBackendServiceNamespace. simpl.
  destruct (createLoxiLoadBalancerEndpointsWithTargetPort r _ _ _) as [loxiep [e|]];
    [reflexivity | apply IH].
Qed.

Lemma rulesLoop_withRules r ingress rules' rules : forall models,
  rulesLoop r (Ingress.withRules ingress rules') rules models
  = rulesLoop r ingress rules models.
Proof.
  induction rules as [|rule rest IH]; intros models; simpl; [reflexivity |].
  destruct (IngressRule.HTTP rule); [| apply IH].
  rewrite pathsLoop_withRules.
  destruct (pathsLoop r ingress rule _ models) as [models' [e|]]; [reflexivity | apply IH].
Qed.

Lemma rulesLoop_skip_nil r ingress pre rule post : forall models,
  IngressRule.HTTP rule = None ->
  rulesLoop r ingress (pre ++ rule :: post) models
  = rulesLoop r ingress (pre ++ post) models.
Proof.
  induction pre as [|r0 pre IH]; intros models Hnil; simpl.
  - now rewrite Hnil.
  - destruct (IngressRule.HTTP r0); [| now apply IH].
    destruct (pathsLoop r ingress r0 _ models) as [models' [e|]]; [reflexivity | now apply IH].
Qed.

(** ** The endpoint resolver *)

Lemma endpointsOf_map ep targetPort :
  endpointsOf ep targetPort = map (endpointAt targetPort) (readyAddresses ep).
Proof.
  unfold endpointsOf, readyAddresses.
  induction (Endpoints.Subsets ep) as [|subset rest IH]; simpl; [reflexivity |].
  rewrite IH, map_app, map_map. reflexivity.
Qed.

(** What the resolver returns, case by case. *)
Lemma resolver_cases r ns name targetPort :
  let key := {| NamespacedName.Namespace := ns; NamespacedName.Name := name |} in
  match Get_Endpoints r key with
  | inr err =>
      createLoxiLoadBalancerEndpointsWithTargetPort r ns name targetPort = ([], Some err)
  | inl ep =>
      match readyAddresses ep with
      | [] =>
          createLoxiLoadBalancerEndpointsWithTargetPort r ns name targetPort
          = ([], Some (noEndpointsError ns name))
      | _ :: _ =>
          createLoxiLoadBalancerEndpointsWithTargetPort r ns name targetPort
          = (map (endpointAt targetPort) (readyAddresses ep), None)
      end
  end.
Proof.
  cbn zeta. unfold createLoxiLoadBalancerEndpointsWithTargetPort.
  destruct (Get_Endpoints r _) as [ep | err]; [| reflexivity].
  rewrite endpointsOf_map. destruct (readyAddresses ep); reflexivity.
Qed.

(** A resolver that returns no error returns at least one endpoint. *)
Lemma resolver_nonempty r ns name targetPort loxiep :
  createLoxiLoadBalancerEndpointsWithTargetPort r ns name targetPort = (loxiep, None) ->
  loxiep <> [].
Proof.
  intros H. pose proof (resolver_cases r ns name targetPort) as Hc. cbn zeta in Hc.
  destruct (Get_Endpoints r _) as [ep | err]; [| congruence].
  destruct (readyAddresses ep); [congruence |].
  rewrite Hc in H. injection H as <-. discriminate.
Qed.



(** ** C6: the port the path-routed builder resolves at *)




(** ** C2: the equality the differ uses *)

Lemma epMatches_iff mep ep : epMatches mep ep = true <-> pairOf mep = pairOf ep.
Proof.
  unfold epMatches, pairOf. rewrite andb_true_iff, String.eqb_eq, Z.eqb_eq.
  split; [intros [-> ->]; reflexivity | intros H; injection H; auto].
Qed.

Lemma existsb_epMatches mep eps :
  existsb (fun ep => epMatches mep ep) eps = true <-> In (pairOf mep) (map pairOf eps).
Proof.
  rewrite existsb_exists, in_map_iff. split.
  - intros (ep & Hin & Hm). exists ep. split; [symmetry; now apply epMatches_iff | exact Hin].
  - intros (ep & Heq & Hin). exists ep. split; [exact Hin | now apply epMatches_iff].
Qed.

(** What the differ's test amounts to: same key, same endpoint count, and
    every pair of the desired model among the pairs of the snapshot item. *)
Lemma modelMatches_iff model lbItem :
  modelMatches model lbItem = true <->
  keyOf lbItem = keyOf model /\
  length (LoadBalancerModel.Endpoints lbItem) = length (LoadBalancerModel.Endpoints model) /\
  incl (pairs model) (pairs lbItem).
Proof.
  unfold modelMatches, keyOf, pairs, incl.
  destruct (String.eqb _ _) eqn:Hname; simpl.
  - apply String.eqb_eq in Hname.
    destruct (Nat.eqb_spec (length (LoadBalancerModel.Endpoints lbItem))
                           (length (LoadBalancerModel.Endpoints model))) as [Hlen | Hlen].
    + rewrite forallb_forall. split.
      * intros H. repeat split; auto. intros p Hp.
        apply in_map_iff in Hp as (mep & <- & Hmep).
        apply existsb_epMatches. now apply H.
      * intros (_ & _ & H) mep Hmep. apply existsb_epMatches, H. now apply in_map.
    + split; [discriminate | intros (_ & H & _); contradiction].
  - apply String.eqb_neq in Hname. split; [discriminate | intros (H & _); contradiction].
Qed.

Lemma diffModels_In models currLBList m :
  In m (diffModels models currLBList) <->
  In m models /\ forall lbItem, In lbItem currLBList -> modelMatches m lbItem = false.
Proof.
  unfold diffModels. rewrite filter_In, negb_true_iff. split; intros [Hin H]; split; auto.
  - intros lbItem Hlb. destruct (modelMatches m lbItem) eqn:Hm; [| reflexivity].
    assert (existsb (modelMatches m) currLBList = true) by (apply existsb_exists; eauto).
    congruence.
  - destruct (existsb (modelMatches m) currLBList) eqn:Hex; [| reflexivity].
    apply existsb_exists in Hex as (lbItem & Hlb & Hm). rewrite (H _ Hlb) in Hm. discriminate.
Qed.

(** The direction the comparison gets right, for every model: a snapshot
    rule with the same key, the same endpoint count and the same pairs is
    judged equal. *)
Lemma same_endpoint_sets_judged_equal model lbItem :
  keyOf lbItem = keyOf model ->
  length (LoadBalancerModel.Endpoints lbItem) = length (LoadBalancerModel.Endpoints model) ->
  (forall p, In p (pairs model) <-> In p (pairs lbItem)) ->
  modelMatches model lbItem = true.
Proof.
  intros Hk Hlen Hboth. apply modelMatches_iff. repeat split; auto.
  intros p. apply Hboth.
Qed.

(** In particular a snapshot rule of the same key whose pairs are those of
    the model in another order is judged equal. *)
Lemma permuted_pairs_judged_equal model lbItem :
  keyOf lbItem = keyOf model ->
  Permutation (pairs model) (pairs lbItem) ->
  modelMatches model lbItem = true.
Proof.
  intros Hk Hperm. apply modelMatches_iff. repeat split; auto.
  - apply Permutation_length in Hperm. unfold pairs in Hperm.
    rewrite !length_map in Hperm. lia.
  - intros p. now apply Permutation_in.
Qed.

(** The other direction holds when the pairs of the desired model are
    pairwise distinct: the count test then makes the one-sided inclusion an
    equality of the two endpoint sets. *)
Lemma judged_equal_distinct_pairs model lbItem :
  List.NoDup (pairs model) ->
  modelMatches model lbItem = true ->
  keyOf lbItem = keyOf model /\
  length (LoadBalancerModel.Endpoints lbItem) = length (LoadBalancerModel.Endpoints model) /\
  (forall p, In p (pairs model) <-> In p (pairs lbItem)).
Proof.
  intros Hnd Hm. apply modelMatches_iff in Hm as (Hk & Hlen & Hincl).
  split; [exact Hk |]. split; [exact Hlen |].
  intros p. split; [apply Hincl |].
  apply (NoDup_length_incl Hnd); [| exact Hincl].
  unfold pairs. rewrite !length_map. lia.
Qed.

(** With a repeated pair it fails: the differ's test is not the equality of
    the endpoint sets. *)
Lemma differ_one_sided :
  ~ (forall model lbItem,
       modelMatches model lbItem = true <->
       keyOf lbItem = keyOf model /\
       length (LoadBalancerModel.Endpoints lbItem)
       = length (LoadBalancerModel.Endpoints model) /\
       (forall p, In p (pairs model) <-> In p (pairs lbItem))).
Proof.
  intros claim.
  destruct (proj1 (claim Scenario.twice Scenario.stale)) as (_ & _ & Hboth);
    [vm_compute; reflexivity |].
  assert (Hin : In ("10.0.0.9", 8080%Z) (pairs Scenario.twice))
    by (apply Hboth; simpl; auto).
  simpl in Hin. destruct Hin as [H | [H | []]]; discriminate H.
Qed.

(** When no desired model is left to create, the differ's list is empty. *)
Lemma diffModels_all_matched models currLBList :
  (forall m, In m models -> exists item, In item currLBList /\ modelMatches m item = true) ->
  diffModels models currLBList = [].
Proof.
  intros Hall. destruct (diffModels models currLBList) as [|m ms] eqn:Hd; [reflexivity |].
  assert (Hin : In m (diffModels models currLBList)) by (rewrite Hd; now left).
  apply diffModels_In in Hin as [Hin Hno].
  destruct (Hall m Hin) as (item & Hitem & Hm). rewrite (Hno item Hitem) in Hm. discriminate.
Qed.

(** C2, on the code. The endpoints object of [ns/svc] lists the one ready
    address 10.0.0.5 in two subsets, so the builder's model for [ns_app] holds
    the endpoint 10.0.0.5:8080 twice; the load balancer lists [ns_app] with
    10.0.0.5:8080 and the stale 10.0.0.9:8080. Key and count agree and each
    desired endpoint is found in the listed rule, so the differ judges the two
    equal although 10.0.0.9:8080 is in the listed rule only: the pass issues
    the list call and no create, and the stale endpoint stays. *)
Theorem differ_misses_repeated_endpoint :
  createLoxiModelList Cases.repeated Cases.single = ([Scenario.twice], None) /\
  keyOf Scenario.stale = keyOf Scenario.twice /\
  length (LoadBalancerModel.Endpoints Scenario.stale)
  = length (LoadBalancerModel.Endpoints Scenario.twice) /\
  In ("10.0.0.9", 8080%Z) (pairs Scenario.stale) /\
  ~ In ("10.0.0.9", 8080%Z) (pairs Scenario.twice) /\
  modelMatches Scenario.twice Scenario.stale = true /\
  diffModels [Scenario.twice] [Scenario.stale] = [] /\
  Reconcile Cases.repeated (Scenario.key "ns" "app") [] = ((requeue30, None), [CallList]).
Proof.
  split; [vm_compute; reflexivity |]. split; [reflexivity |]. split; [reflexivity |].
  split; [simpl; auto |]. split.
  - simpl. intros [H | [H | []]]; discriminate H.
  - repeat split; vm_compute; reflexivity.
Qed.

(** ** The pass as one equation *)

Lemma existScan_acc ruleName ruleNameHTTPS items : forall a b,
  ruleName <> ruleNameHTTPS ->
  fold_left (fun (acc : bool * bool) lbItem =>
    let '(exist_, existHTTPS) := acc in
    if String.eqb (LoadBalancerService.Name (LoadBalancerModel.Service lbItem)) ruleName
    then (true, existHTTPS)
    else if String.eqb (LoadBalancerService.Name (LoadBalancerModel.Service lbItem))
                       ruleNameHTTPS
    then (exist_, true)
    else (exist_, existHTTPS))
    items (a, b)
  = (a || installed ruleName items, b || installed ruleNameHTTPS items).
Proof.
  induction items as [|item rest IH]; intros a b Hne; simpl.
  - now rewrite !orb_false_r.
  - unfold nameIs.
    destruct (String.eqb_spec (LoadBalancerService.Name (LoadBalancerModel.Service item))
                              ruleName) as [Heq | Hneq].
    + rewrite IH by assumption.
      destruct (String.eqb_spec (LoadBalancerService.Name (LoadBalancerModel.Service item))
                                ruleNameHTTPS) as [Heq' | _]; [congruence |].
      simpl. now rewrite orb_true_r.
    + destruct (String.eqb_spec (LoadBalancerService.Name (LoadBalancerModel.Service item))
                                ruleNameHTTPS) as [Heq' | _];
        rewrite IH by assumption; simpl; [now rewrite orb_true_r | reflexivity].
Qed.

(** The two flags of the scan say which of the two keys the snapshot holds. *)
Lemma existScan_installed req items :
  existScan (ruleNameOf req) (ruleNameHTTPSOf req) items
  = (installed (ruleNameOf req) items, installed (ruleNameHTTPSOf req) items).
Proof.
  unfold existScan. rewrite existScan_acc; [reflexivity |].
  apply ruleName_neq_HTTPS.
Qed.

Lemma deleteIf_run r cond name h :
  deleteIf r cond name h = (tt, h ++ (if cond then [CallDeleteByName name] else [])).
Proof. destruct cond; simpl; [reflexivity | now rewrite app_nil_r]. Qed.

(** One pass, from the history [h] on: its result and the history it leaves. *)
Lemma Reconcile_eq r req h :
  Reconcile r req h =
  let h0 := h ++ [CallList] in
  match LoadBalancer_List r h with
  | inr err => ((noResult, Some err), h0)
  | inl items =>
      match Get_Ingress r req with
      | inr err =>
          if IsNotFound err
          then ((noResult, None), h0 ++ deleteCalls req items)
          else ((noResult, Some err), h0)
      | inl ingress =>
          match buildModels r ingress with
          | (_, Some e) => ((noResult, Some e), h0 ++ deleteCalls req items)
          | (models, None) =>
              match diffModels models items with
              | [] => ((requeue30, None), h0)
              | applyModels =>
                  match applyLoop r applyModels h0 with
                  | (Some e, h1) => ((noResult, Some e), h1)
                  | (None, h1) => ((requeue30, None), snd (updateIngressStatus r ingress h1))
                  end
              end
          end
      end
  end.
Proof.
  unfold Reconcile, bind, List, ret. cbn zeta.
  destruct (LoadBalancer_List r h) as [items | err]; [| reflexivity].
  fold (ruleNameOf req) (ruleNameHTTPSOf req). rewrite existScan_installed.
  destruct (Get_Ingress r req) as [ingress | err].
  - fold (buildModels r ingress).
    destruct (buildModels r ingress) as [models [e|]].
    + rewrite !deleteIf_run. unfold deleteCalls. now rewrite <- app_assoc.
    + destruct (diffModels models items) as [|m ms]; [reflexivity |].
      cbn [length Nat.leb].
      destruct (applyLoop r (m :: ms) (h ++ [CallList])) as [[e|] h1]; [reflexivity |].
      destruct (updateIngressStatus r ingress h1) as [res h2]. reflexivity.
  - destruct (IsNotFound err); [| reflexivity].
    rewrite !deleteIf_run. unfold deleteCalls. now rewrite <- app_assoc.
Qed.

(** A pass whose desired models are all matched by the snapshot issues no
    create: it lists, and asks to be run again in 30 seconds. *)
Lemma matched_pass_issues_no_create r req h items ingress models :
  LoadBalancer_List r h = inl items ->
  Get_Ingress r req = inl ingress ->
  buildModels r ingress = (models, None) ->
  (forall m, In m models -> exists item, In item items /\ modelMatches m item = true) ->
  Reconcile r req h = ((requeue30, None), h ++ [CallList]).
Proof.
  intros Hlist Hget Hbuild Hall. rewrite Reconcile_eq. cbn zeta.
  rewrite Hlist, Hget, Hbuild. now rewrite (diffModels_all_matched _ _ Hall).
Qed.

(** ** C1: what a deleted ingress removes *)

Lemma installed_filter name n store :
  installed name (List.filter (fun m => negb (nameIs n m)) store)
  = (if String.eqb n name then false else installed name store).
Proof.
  unfold installed, nameIs.
  induction store as [|m rest IH]; simpl; [now destruct (String.eqb n name) |].
  destruct (String.eqb_spec (LoadBalancerService.Name (LoadBalancerModel.Service m)) n)
    as [Hn | Hn]; simpl.
  - rewrite IH. destruct (String.eqb_spec n name) as [Heq | Hneq]; [reflexivity |].
    destruct (String.eqb_spec (LoadBalancerService.Name (LoadBalancerModel.Service m)) name);
      [congruence | reflexivity].
  - rewrite IH. destruct (String.eqb_spec n name) as [Heq | Hneq]; [| reflexivity].
    destruct (String.eqb_spec (LoadBalancerService.Name (LoadBalancerModel.Service m)) name);
      [congruence | reflexivity].
Qed.

(** What the deletion calls of a pass leave of a key in the store. *)
Lemma storeAfter_deleteCalls req items store name :
  installed name (storeAfter store (CallList :: deleteCalls req items))
  = if (String.eqb (ruleNameOf req) name && installed (ruleNameOf req) items)
       || (String.eqb (ruleNameHTTPSOf req) name && installed (ruleNameHTTPSOf req) items)
    then false else installed name store.
Proof.
  unfold deleteCalls, storeAfter.
  destruct (installed (ruleNameOf req) items), (installed (ruleNameHTTPSOf req) items);
    simpl; rewrite ?installed_filter, ?andb_true_r, ?andb_false_r, ?orb_false_r;
    try reflexivity.
  - destruct (String.eqb (ruleNameOf req) name), (String.eqb (ruleNameHTTPSOf req) name);
      reflexivity.
Qed.

(** C1, as the spec has it, fails: the load balancer holds [ns_app] and
    [ns_app_https], the snapshot shows [ns_app] only, the ingress is gone;
    the pass deletes [ns_app] and leaves [ns_app_https] installed. *)
Lemma deleted_source_leaves_unlisted_key :
  ~ (forall r req items err store calls,
       LoadBalancer_List r [] = inl items ->
       Get_Ingress r req = inr err -> IsNotFound err = true ->
       installed (ruleNameOf req) store = true ->
       installed (ruleNameHTTPSOf req) store = true ->
       (installed (ruleNameOf req) items = true
        \/ installed (ruleNameHTTPSOf req) items = true) ->
       snd (Reconcile r req []) = calls ->
       installed (ruleNameOf req) (storeAfter store calls) = false /\
       installed (ruleNameHTTPSOf req) (storeAfter store calls) = false).
Proof.
  intros claim.
  destruct (claim Scenario.gone (Scenario.key "ns" "app") [Scenario.appPlain]
              Scenario.notFound Scenario.remoteBefore
              [CallList; CallDeleteByName "ns_app"]) as [_ H];
    try (vm_compute; reflexivity).
  - left. vm_compute. reflexivity.
  - vm_compute in H. discriminate H.
Qed.

(** C1, amended. When the ingress is gone (the get reports not-found), the
    pass returns without error after issuing [DeleteByName] for exactly those
    of the two keys [ns_name] and [ns_name_https] that the snapshot holds,
    the plain one first, and no other call. On a store that carries out the
    calls, a key the snapshot holds is removed, and a key the snapshot does
    not hold is left as it was, installed or not. *)
Theorem deleted_source_deletes_listed_keys r req h items err :
  LoadBalancer_List r h = inl items ->
  Get_Ingress r req = inr err ->
  IsNotFound err = true ->
  Reconcile r req h
  = ((noResult, None),
     h ++ [CallList]
       ++ (if installed (ruleNameOf req) items
           then [CallDeleteByName (ruleNameOf req)] else [])
       ++ (if installed (ruleNameHTTPSOf req) items
           then [CallDeleteByName (ruleNameHTTPSOf req)] else [])) /\
  forall store name,
    name = ruleNameOf req \/ name = ruleNameHTTPSOf req ->
    installed name (storeAfter store (CallList :: deleteCalls req items))
    = if installed name items then false else installed name store.
Proof.
  intros Hlist Hget Hnf. split.
  - rewrite Reconcile_eq. cbn zeta. rewrite Hlist, Hget, Hnf.
    unfold deleteCalls. now rewrite <- app_assoc.
  - intros store name Hname. rewrite storeAfter_deleteCalls.
    pose proof (ruleName_neq_HTTPS (NamespacedName.Namespace req) (NamespacedName.Name req))
      as Hne. fold (ruleNameOf req) (ruleNameHTTPSOf req) in Hne.
    destruct Hname as [-> | ->].
    + rewrite String.eqb_refl.
      destruct (String.eqb_spec (ruleNameHTTPSOf req) (ruleNameOf req)); [congruence |].
      simpl. rewrite orb_false_r. reflexivity.
    + rewrite String.eqb_refl.
      destruct (String.eqb_spec (ruleNameOf req) (ruleNameHTTPSOf req)); [congruence |].
      reflexivity.
Qed.

Lemma deleted_source_deletes_listed_keys_witness :
  Reconcile Scenario.gone (Scenario.key "ns" "app") []
  = ((noResult, None), [CallList; CallDeleteByName "ns_app"]).
Proof.
  refine (proj1 (deleted_source_deletes_listed_keys Scenario.gone (Scenario.key "ns" "app") []
                   [Scenario.appPlain] Scenario.notFound _ _ _)); reflexivity.
Defined.

(** ** C7: errors of the create calls *)

Lemma applyLoop_run_swallowed r pre : forall rest h,
  (forall p1 x p2, pre = p1 ++ x :: p2 -> swallowed r (h ++ map CallCreate p1) x) ->
  applyLoop r (pre ++ rest) h = applyLoop r rest (h ++ map CallCreate pre).
Proof.
  induction pre as [|a pre IH]; intros rest h Hsw; simpl.
  - now rewrite app_nil_r.
  - assert (Hnext : forall p1 x p2, pre = p1 ++ x :: p2 ->
                      swallowed r ((h ++ [CallCreate a]) ++ map CallCreate p1) x).
    { intros p1 x p2 ->. rewrite <- app_assoc. exact (Hsw (a :: p1) x p2 eq_refl). }
    specialize (Hsw [] a pre eq_refl). simpl in Hsw. rewrite app_nil_r in Hsw.
    unfold bind, Create.
    replace (h ++ CallCreate a :: map CallCreate pre)
      with ((h ++ [CallCreate a]) ++ map CallCreate pre) by now rewrite <- app_assoc.
    destruct Hsw as [Hok | (e & He & Hmsg)].
    + rewrite Hok. now apply IH.
    + rewrite He, Hmsg. simpl. now apply IH.
Qed.

(** C7. In a pass that reaches the create loop: when the store answers every
    create before [model] with success or with the already-exists error and
    answers the create of [model] with any other error, the pass stops right
    there (the models after [model] are not attempted, no status is written)
    and returns that error; when the store answers every create with success
    or with the already-exists error, every model of the create list is
    attempted, in order, and the pass goes on to the status update and ends
    without error. *)
Theorem create_errors r req h items ingress models :
  LoadBalancer_List r h = inl items ->
  Get_Ingress r req = inl ingress ->
  buildModels r ingress = (models, None) ->
  let h0 := h ++ [CallList] in
  (forall pre model post e,
     diffModels models items = pre ++ model :: post ->
     (forall p1 x p2, pre = p1 ++ x :: p2 -> swallowed r (h0 ++ map CallCreate p1) x) ->
     LoadBalancer_Create r (h0 ++ map CallCreate pre) model = Some e ->
     Error e <> "lbrule-exists error" ->
     Reconcile r req h = ((noResult, Some e), h0 ++ map CallCreate (pre ++ [model]))) /\
  (diffModels models items <> [] ->
   (forall p1 x p2, diffModels models items = p1 ++ x :: p2 ->
                    swallowed r (h0 ++ map CallCreate p1) x) ->
   Reconcile r req h
   = ((requeue30, None),
      snd (updateIngressStatus r ingress (h0 ++ map CallCreate (diffModels models items))))).
Proof.
  intros Hlist Hget Hbuild h0. split.
  - intros pre model post e Hdiff Hsw Hcreate Hmsg.
    rewrite Reconcile_eq. cbn zeta. rewrite Hlist, Hget, Hbuild. fold h0.
    assert (Hrun : applyLoop r (diffModels models items) h0
                   = (Some e, h0 ++ map CallCreate (pre ++ [model]))).
    { rewrite Hdiff, (applyLoop_run_swallowed r pre _ h0 Hsw). simpl.
      unfold bind, Create. rewrite Hcreate.
      apply String.eqb_neq in Hmsg. rewrite Hmsg. simpl.
      now rewrite map_app, app_assoc. }
    destruct (diffModels models items) as [|m ms] eqn:Hd.
    + destruct pre; discriminate Hdiff.
    + now rewrite Hrun.
  - intros Hne Hsw.
    rewrite Reconcile_eq. cbn zeta. rewrite Hlist, Hget, Hbuild. fold h0.
    assert (Hrun : applyLoop r (diffModels models items) h0
                   = (None, h0 ++ map CallCreate (diffModels models items))).
    { rewrite <- (app_nil_r (diffModels models items)) at 1.
      now rewrite (applyLoop_run_swallowed r _ [] h0 Hsw). }
    destruct (diffModels models items) as [|m ms] eqn:Hd; [congruence |].
    now rewrite Hrun.
Qed.

Lemma create_errors_witness :
  Reconcile Scenario.busy (Scenario.key "ns" "app") []
  = ((noResult, Some Scenario.refused),
     [CallList; CallCreate Scenario.appPlain; CallCreate Scenario.appHTTPS]).
Proof.
  refine (proj1 (create_errors Scenario.busy (Scenario.key "ns" "app") [] [] Scenario.app
                   [Scenario.appPlain; Scenario.appHTTPS] _ _ _)
            [Scenario.appPlain] Scenario.appHTTPS [] Scenario.refused _ _ _ _).
  - reflexivity.
  - reflexivity.
  - vm_compute. reflexivity.
  - reflexivity.
  - intros [|y p1] x p2 Heq.
    + injection Heq as <- _. right. exists (Errorf "lbrule-exists error"). split; reflexivity.
    + injection Heq as _ Heq. destruct p1; discriminate Heq.
  - reflexivity.
  - discriminate.
Defined.

(** ** C3: backends without ready endpoints *)

Lemma backendsLoop_app r ingress bs1 bs2 : forall models,
  backendsLoop r ingress (bs1 ++ bs2) models
  = match backendsLoop r ingress bs1 models with
    | (ms, Some e) => (ms, Some e)
    | (ms, None) => backendsLoop r ingress bs2 ms
    end.
Proof.
  induction bs1 as [|[rule service] rest IH]; intros models; simpl; [reflexivity |].
  destruct (backendEndpoints r ingress service) as [loxiep [e|]]; [reflexivity | apply IH].
Qed.

Lemma pathsLoop_flat r ingress rule paths : forall models,
  pathsLoop r ingress rule paths models
  = backendsLoop r ingress
      (flat_map (fun path =>
         match IngressBackend.Service (HTTPIngressPath.Backend path) with
         | None => []
         | Some service => [(rule, service)]
         end) paths) models.
Proof.
  induction paths as [|path rest IH]; intros models; simpl; [reflexivity |].
  destruct (IngressBackend.Service (HTTPIngressPath.Backend path)) as [service|];
    simpl; [| apply IH].
  unfold backendEndpoints.
  destruct (createLoxiLoadBalancerEndpointsWithTargetPort r _ _ _) as [loxiep [e|]];
    [reflexivity | apply IH].
Qed.

Lemma rulesLoop_flat r ingress rules : forall models,
  rulesLoop r ingress rules models
  = backendsLoop r ingress
      (flat_map (fun rule =>
         match IngressRule.HTTP rule with
         | None => []
         | Some http =>
             flat_map (fun path =>
               match IngressBackend.Service (HTTPIngressPath.Backend path) with
               | None => []
               | Some service => [(rule, service)]
               end) (HTTPIngressRuleValue.Paths http)
         end) rules) models.
Proof.
  induction rules as [|rule rest IH]; intros models; simpl; [reflexivity |].
  destruct (IngressRule.HTTP rule) as [http|]; simpl; [| apply IH].
  rewrite backendsLoop_app, <- pathsLoop_flat.
  destruct (pathsLoop r ingress rule _ models) as [models' [e|]]; [reflexivity | apply IH].
Qed.

(** The path-routed builder is one loop over the service backends. *)
Lemma createLoxiModelList_flat r ingress :
  createLoxiModelList r ingress = backendsLoop r ingress (backendsOf ingress) [].
Proof. apply rulesLoop_flat. Qed.

(** The builder stops at the first backend the resolver fails on. *)
Lemma backendsLoop_first_failure r ingress pre rule b post e : forall models,
  (forall rl s, In (rl, s) pre -> snd (backendEndpoints r ingress s) = None) ->
  snd (backendEndpoints r ingress b) = Some e ->
  snd (backendsLoop r ingress (pre ++ (rule, b) :: post) models) = Some e.
Proof.
  induction pre as [|[rl s] pre IH]; intros models Hpre Hb; simpl.
  - destruct (backendEndpoints r ingress b) as [loxiep [e'|]]; simpl in *; congruence.
  - pose proof (Hpre rl s (or_introl eq_refl)) as Hs.
    destruct (backendEndpoints r ingress s) as [loxiep [e'|]]; simpl in Hs; [discriminate |].
    apply IH; [| exact Hb]. intros rl' s' Hin. apply (Hpre rl' s'). now right.
Qed.

Lemma backendsLoop_some_failure r ingress bs rule b : forall models,
  In (rule, b) bs ->
  snd (backendEndpoints r ingress b) <> None ->
  snd (backendsLoop r ingress bs models) <> None.
Proof.
  induction bs as [|[rl s] rest IH]; intros models Hin Hb; simpl; [contradiction |].
  destruct (backendEndpoints r ingress s) as [loxiep [e'|]] eqn:Hs; [discriminate |].
  destruct Hin as [Heq | Hin]; [| now apply IH].
  injection Heq as -> ->. rewrite Hs in Hb. contradiction.
Qed.

Lemma backendEndpoints_empty r ingress b ep :
  Get_Endpoints r (backendKey ingress b) = inl ep ->
  readyAddresses ep = [] ->
  backendEndpoints r ingress b
  = ([], Some (noEndpointsError (NamespacedName.Namespace (backendKey ingress b))
                                (IngressServiceBackend.Name b))).
Proof.
  intros Hget Hempty. unfold backendEndpoints.
  pose proof (resolver_cases r (getBackendServiceNamespace ingress (IngressServiceBackend.Name b))
                (IngressServiceBackend.Name b)
                (ServiceBackendPort.Number (IngressServiceBackend.Port b))) as Hc.
  cbn zeta in Hc. fold (backendKey ingress b) in Hc. now rewrite Hget, Hempty in Hc.
Qed.

(** The direct builder passes on only what the resolver returned without
    error. *)
Lemma directPortsLoop_nonempty r svc svcNs svcName lbName selStr ports :
  forall models res err,
  directPortsLoop r svc svcNs svcName lbName selStr ports models = (res, err) ->
  (forall m, In m models -> LoadBalancerModel.Endpoints m <> []) ->
  forall m, In m res -> LoadBalancerModel.Endpoints m <> [].
Proof.
  induction ports as [|port rest IH]; intros models res err Hrun Hold; simpl in Hrun.
  - injection Hrun as <- _. exact Hold.
  - destruct (GetServicePortIntValue r svc port) as [targetPortNum [e|]].
    + injection Hrun as <- _. exact Hold.
    + destruct (createLoxiLoadBalancerEndpointsWithTargetPort r svcNs svcName targetPortNum)
        as [loxiep [e|]] eqn:Hep.
      * injection Hrun as <- _. exact Hold.
      * apply (IH _ _ _ Hrun). intros m Hin.
        apply in_app_or in Hin as [Hin | [<- | []]]; [now apply Hold |].
        simpl. exact (resolver_nonempty _ _ _ _ _ Hep).
Qed.

(** Whatever either builder returns, with or without an error, holds no
    model with an empty endpoint list. *)
Lemma buildModels_nonempty r ingress models err m :
  buildModels r ingress = (models, err) ->
  In m models -> LoadBalancerModel.Endpoints m <> [].
Proof.
  unfold buildModels. intros Hrun Hin.
  destruct (Ingress.Annotations ingress !! "loxilb.io/direct-loadbalance-service")
    as [svcName|] eqn:Hann.
  - unfold createDirectLoxiModelList in Hrun. rewrite Hann in Hrun.
    destruct (Get_Service r _) as [svc | e].
    + apply (directPortsLoop_nonempty _ _ _ _ _ _ _ _ _ _ Hrun); [| exact Hin].
      intros m' [].
    + injection Hrun as <- _. destruct Hin.
  - destruct (createLoxiModelList_In _ _ _ _ _ Hrun Hin)
      as (rule & http & _ & _ & path & service & loxiep & _ & _ & Hep & ->).
    simpl. exact (resolver_nonempty _ _ _ _ _ Hep).
Qed.

(** The create loop issues creates only, for models of its list. *)
Lemma applyLoop_calls r ms : forall h,
  exists attempted,
    snd (applyLoop r ms h) = h ++ map CallCreate attempted /\ incl attempted ms.
Proof.
  induction ms as [|a ms IH]; intros h; simpl.
  - exists []. split; [now rewrite app_nil_r | apply incl_refl].
  - unfold bind, Create.
    assert (Hgo : exists attempted,
               snd (applyLoop r ms (h ++ [CallCreate a])) = h ++ map CallCreate attempted
               /\ incl attempted (a :: ms)).
    { destruct (IH (h ++ [CallCreate a])) as (att & Heq & Hincl).
      exists (a :: att). split.
      - rewrite Heq. now rewrite <- app_assoc.
      - intros x [<- | Hx]; [now left | right; now apply Hincl]. }
    destruct (LoadBalancer_Create r h a) as [e|]; [| exact Hgo].
    destruct (negb (String.eqb (Error e) "lbrule-exists error")); [| exact Hgo].
    exists [a]. split; [reflexivity |]. intros x [<- | []]. now left.
Qed.

Lemma updateIngressStatus_calls r ingress h :
  snd (updateIngressStatus r ingress h) = h \/
  exists written, snd (updateIngressStatus r ingress h) = h ++ [CallStatusUpdate written].
Proof.
  unfold updateIngressStatus.
  destruct (lbSvcKey ingress) as [key|]; [| now left].
  destruct (Get_Service r key) as [svc | e]; [| now left].
  right. eexists. reflexivity.
Qed.

Lemma deleteCalls_no_create req items m : ~ In (CallCreate m) (deleteCalls req items).
Proof.
  unfold deleteCalls. intros Hin.
  apply in_app_or in Hin as [Hin | Hin];
    [destruct (installed (ruleNameOf req) items)
    | destruct (installed (ruleNameHTTPSOf req) items)];
    simpl in Hin; intuition discriminate.
Qed.

(** A builder error ends the pass with that error after the roll-back
    deletions; no create is issued. *)
Lemma build_error_aborts r req h items ingress models e :
  LoadBalancer_List r h = inl items ->
  Get_Ingress r req = inl ingress ->
  buildModels r ingress = (models, Some e) ->
  Reconcile r req h = ((noResult, Some e), h ++ [CallList] ++ deleteCalls req items).
Proof.
  intros Hlist Hget Hbuild. rewrite Reconcile_eq. cbn zeta.
  rewrite Hlist, Hget, Hbuild. now rewrite <- app_assoc.
Qed.

(** C3. No pass ever hands the store's create a model with an empty endpoint
    list. In a pass on an ingress that is present: in path-routed mode, when
    the builder reaches a service backend whose endpoints object lists no
    address (every backend before it resolved), the pass ends with the
    no-endpoints error of that backend, and whenever any service backend of
    the ingress has no address the pass ends with an error; in direct mode,
    when the target service has a port and its endpoints object lists no
    address, the pass ends with the no-endpoints error (or with the error of
    resolving the first port's target, which comes first). In each case the
    pass issues the roll-back deletions and no create. *)
Theorem empty_endpoints_abort r req h :
  (exists calls,
     snd (Reconcile r req h) = h ++ calls /\
     forall m, In (CallCreate m) calls -> LoadBalancerModel.Endpoints m <> []) /\
  (forall items ingress,
     LoadBalancer_List r h = inl items ->
     Get_Ingress r req = inl ingress ->
     (forall pre rule b post ep,
        Ingress.Annotations ingress !! "loxilb.io/direct-loadbalance-service" = None ->
        backendsOf ingress = pre ++ (rule, b) :: post ->
        (forall rl s, In (rl, s) pre -> snd (backendEndpoints r ingress s) = None) ->
        Get_Endpoints r (backendKey ingress b) = inl ep ->
        readyAddresses ep = [] ->
        Reconcile r req h
        = ((noResult,
            Some (noEndpointsError (NamespacedName.Namespace (backendKey ingress b))
                                   (IngressServiceBackend.Name b))),
           h ++ [CallList] ++ deleteCalls req items)) /\
     (forall rule b ep,
        Ingress.Annotations ingress !! "loxilb.io/direct-loadbalance-service" = None ->
        In (rule, b) (backendsOf ingress) ->
        Get_Endpoints r (backendKey ingress b) = inl ep ->
        readyAddresses ep = [] ->
        exists e,
          Reconcile r req h = ((noResult, Some e), h ++ [CallList] ++ deleteCalls req items)) /\
     (forall svcName svc port rest ep,
        Ingress.Annotations ingress !! "loxilb.io/direct-loadbalance-service" = Some svcName ->
        Get_Service r {| NamespacedName.Namespace := directNamespace ingress;
                         NamespacedName.Name := svcName |} = inl svc ->
        Service.Ports svc = port :: rest ->
        Get_Endpoints r {| NamespacedName.Namespace := directNamespace ingress;
                           NamespacedName.Name := svcName |} = inl ep ->
        readyAddresses ep = [] ->
        Reconcile r req h
        = ((noResult,
            Some (match snd (GetServicePortIntValue r svc port) with
                  | Some e => e
                  | None => noEndpointsError (directNamespace ingress) svcName
                  end)),
           h ++ [CallList] ++ deleteCalls req items))).
Proof.
  split.
  - rewrite Reconcile_eq. cbn zeta.
    assert (Hlist : exists calls, h ++ [CallList] = h ++ calls /\
                      forall m, In (CallCreate m) calls -> LoadBalancerModel.Endpoints m <> []).
    { exists [CallList]. split; [reflexivity |]. intros m [H | []]. discriminate H. }
    assert (Hdel : forall items, exists calls,
               (h ++ [CallList]) ++ deleteCalls req items = h ++ calls /\
               forall m, In (CallCreate m) calls -> LoadBalancerModel.Endpoints m <> []).
    { intros items. exists ([CallList] ++ deleteCalls req items).
      split; [now rewrite app_assoc |].
      intros m [H | H]; [discriminate H | now apply deleteCalls_no_create in H]. }
    destruct (LoadBalancer_List r h) as [items | err]; [| exact Hlist].
    destruct (Get_Ingress r req) as [ingress | err];
      [| destruct (IsNotFound err); [apply Hdel | exact Hlist]].
    destruct (buildModels r ingress) as [models [e|]] eqn:Hbuild; [apply Hdel |].
    destruct (diffModels models items) as [|m0 ms] eqn:Hdiff; [exact Hlist |].
    destruct (applyLoop_calls r (m0 :: ms) (h ++ [CallList])) as (att & Heq & Hincl).
    assert (Hatt : forall m, In (CallCreate m) ([CallList] ++ map CallCreate att) ->
                     LoadBalancerModel.Endpoints m <> []).
    { intros m [H | H]; [discriminate H |].
      apply in_map_iff in H as (x & Hx & Hin). injection Hx as ->.
      apply Hincl in Hin. rewrite <- Hdiff in Hin. apply diffModels_In in Hin as [Hin _].
      exact (buildModels_nonempty _ _ _ _ _ Hbuild Hin). }
    destruct (applyLoop r (m0 :: ms) (h ++ [CallList])) as [[e|] h1]; simpl in Heq; subst h1.
    + exists ([CallList] ++ map CallCreate att). split; [now rewrite app_assoc | exact Hatt].
    + destruct (updateIngressStatus_calls r ingress ((h ++ [CallList]) ++ map CallCreate att))
        as [Hs | (w & Hs)]; cbn [snd]; rewrite Hs.
      * exists ([CallList] ++ map CallCreate att). split; [now rewrite app_assoc | exact Hatt].
      * exists (([CallList] ++ map CallCreate att) ++ [CallStatusUpdate w]).
        split; [now rewrite !app_assoc |].
        intros m Hin. apply in_app_or in Hin as [Hin | [H | []]];
          [now apply Hatt | discriminate H].
  - intros items ingress Hlist Hget. split; [| split].
    + intros pre rule b post ep Hann Hbs Hpre Hep Hempty.
      apply (build_error_aborts r req h items ingress
               (fst (buildModels r ingress))); try assumption.
      rewrite (surjective_pairing (buildModels r ingress)). f_equal.
      unfold buildModels. rewrite Hann, createLoxiModelList_flat, Hbs.
      apply backendsLoop_first_failure; [exact Hpre |].
      now rewrite (backendEndpoints_empty _ _ _ _ Hep Hempty).
    + intros rule b ep Hann Hin Hep Hempty.
      destruct (buildModels r ingress) as [models [e|]] eqn:Hbuild.
      * exists e. now apply (build_error_aborts r req h items ingress models).
      * exfalso. unfold buildModels in Hbuild. rewrite Hann, createLoxiModelList_flat in Hbuild.
        apply (backendsLoop_some_failure r ingress (backendsOf ingress) rule b [] Hin).
        -- rewrite (backendEndpoints_empty _ _ _ _ Hep Hempty). discriminate.
        -- now rewrite Hbuild.
    + intros svcName svc port rest ep Hann Hsvc Hports Hep Hempty.
      apply (build_error_aborts r req h items ingress []); try assumption.
      unfold buildModels, createDirectLoxiModelList. rewrite Hann.
      fold (directNamespace ingress). rewrite Hsvc, Hports. simpl.
      destruct (GetServicePortIntValue r svc port) as [targetPortNum [e|]]; [reflexivity |].
      pose proof (resolver_cases r (directNamespace ingress) svcName targetPortNum) as Hc.
      cbn zeta in Hc. rewrite Hep, Hempty in Hc. now rewrite Hc.
Qed.

Lemma empty_endpoints_abort_witness :
  Reconcile Scenario.idle (Scenario.key "ns" "app") []
  = ((noResult, Some (noEndpointsError "ns" "svc")),
     [CallList; CallDeleteByName "ns_app"]).
Proof.
  refine (proj1 (proj2 (empty_endpoints_abort Scenario.idle (Scenario.key "ns" "app") [])
                   [Scenario.appPlain] Scenario.app _ _)
            []
             {| IngressRule.Host := "a.com";
                IngressRule.HTTP :=
                  Some {| HTTPIngressRuleValue.Paths := [Scenario.pathTo "/" "svc" 8080] |} |}
             {| IngressServiceBackend.Name := "svc";
                IngressServiceBackend.Port :=
                  {| ServiceBackendPort.Name := ""; ServiceBackendPort.Number := 8080 |} |}
             [ ({| IngressRule.Host := "b.com";
                   IngressRule.HTTP :=
                     Some {| HTTPIngressRuleValue.Paths :=
                               [Scenario.pathTo "/api" "svc" 8080] |} |},
                {| IngressServiceBackend.Name := "svc";
                   IngressServiceBackend.Port :=
                     {| ServiceBackendPort.Name := "";
                        ServiceBackendPort.Number := 8080 |} |}) ]
             Scenario.noAddresses _ _ _ _ _).
  - reflexivity.
  - reflexivity.
  - vm_compute. reflexivity.
  - reflexivity.
  - intros rl s [].
  - vm_compute. reflexivity.
  - reflexivity.
Defined.

(** ** C5: the direct-service scenario *)

(** The key of every model of the direct builder is made of the namespace of
    the target service and the name of the ingress. *)
Lemma directPortsLoop_keys r svc svcNs svcName lbName selStr ports :
  forall models res err,
  directPortsLoop r svc svcNs svcName lbName selStr ports models = (res, err) ->
  (forall m, In m models -> keyOf m = Sprintf_s_s svcNs lbName) ->
  forall m, In m res -> keyOf m = Sprintf_s_s svcNs lbName.
Proof.
  induction ports as [|port rest IH]; intros models res err Hrun Hold; simpl in Hrun.
  - injection Hrun as <- _. exact Hold.
  - destruct (GetServicePortIntValue r svc port) as [targetPortNum [e|]].
    + injection Hrun as <- _. exact Hold.
    + destruct (createLoxiLoadBalancerEndpointsWithTargetPort r svcNs svcName targetPortNum)
        as [loxiep [e|]].
      * injection Hrun as <- _. exact Hold.
      * apply (IH _ _ _ Hrun). intros m Hin.
        apply in_app_or in Hin as [Hin | [<- | []]]; [now apply Hold | reflexivity].
Qed.

Lemma direct_keys r ingress models err m :
  createDirectLoxiModelList r ingress = (models, err) ->
  In m models ->
  keyOf m = Sprintf_s_s (directNamespace ingress) (Ingress.Name ingress).
Proof.
  unfold createDirectLoxiModelList. intros Hrun Hin.
  destruct (Ingress.Annotations ingress !! "loxilb.io/direct-loadbalance-service");
    [| injection Hrun as <- _; destruct Hin].
  fold (directNamespace ingress) in Hrun.
  destruct (Get_Service r _) as [svc | e]; [| injection Hrun as <- _; destruct Hin].
  apply (directPortsLoop_keys _ _ _ _ _ _ _ _ _ _ Hrun); [| exact Hin].
  intros m' [].
Qed.

(** C5, on the code. In the scenario the direct builder returns one model,
    exposed on 0.0.0.0:9090 with the endpoint 10.0.1.4 at the container's
    port 9090, but under the key [ns2_app] (namespace of the target service),
    not [ns_app]. The pass installs it under that key, and the pass that runs
    once the ingress is deleted, which looks for [ns_app] and
    [ns_app_https], finds neither and deletes nothing. *)
Theorem direct_scenario_key :
  createDirectLoxiModelList Scenario.direct Scenario.appDirect
  = ([Scenario.directRule], None) /\
  keyOf Scenario.directRule = "ns2_app" /\
  Reconcile Scenario.direct (Scenario.key "ns" "app") []
  = ((requeue30, None), [CallList; CallCreate Scenario.directRule]) /\
  Reconcile Scenario.directGone (Scenario.key "ns" "app") []
  = ((noResult, None), [CallList]).
Proof. repeat split; vm_compute; reflexivity. Qed.

(** ** C9: the status reflector *)

Lemma checkExist_iff ingress ing :
  checkIngressLoadBalancerIngressExist ingress ing = true <->
  exists i, In i (Ingress.StatusIngress ingress) /\
    ((IngressLoadBalancerIngress.IP i <> "" /\
      IngressLoadBalancerIngress.IP i = LoadBalancerIngress.IP ing) \/
     (IngressLoadBalancerIngress.Hostname i <> "" /\
      IngressLoadBalancerIngress.Hostname i = LoadBalancerIngress.Hostname ing)).
Proof.
  unfold checkIngressLoadBalancerIngressExist. rewrite existsb_exists.
  split; intros (i & Hin & H); exists i; (split; [exact Hin |]).
  - rewrite orb_true_iff, !andb_true_iff, !negb_true_iff, !String.eqb_neq, !String.eqb_eq in H.
    exact H.
  - rewrite orb_true_iff, !andb_true_iff, !negb_true_iff, !String.eqb_neq, !String.eqb_eq.
    exact H.
Qed.

(** An entry found on the status stays found when the status grows. *)
Lemma checkExist_grows ingress extra ing :
  checkIngressLoadBalancerIngressExist ingress ing = true ->
  checkIngressLoadBalancerIngressExist
    (Ingress.withStatusIngress ingress (Ingress.StatusIngress ingress ++ extra)) ing = true.
Proof.
  rewrite !checkExist_iff. intros (i & Hin & H). exists i. split; [| exact H].
  simpl. apply in_or_app. now left.
Qed.

Lemma statusLoop_skip pre ing post : forall ingress,
  checkIngressLoadBalancerIngressExist ingress ing = true ->
  statusLoop ingress (pre ++ ing :: post) = statusLoop ingress (pre ++ post).
Proof.
  induction pre as [|x pre IH]; intros ingress Hdup; simpl.
  - now rewrite Hdup.
  - destruct (checkIngressLoadBalancerIngressExist ingress x); [now apply IH |].
    apply IH. now apply checkExist_grows.
Qed.

Lemma statusLoop_all_known ings : forall ingress,
  (forall ing, In ing ings -> checkIngressLoadBalancerIngressExist ingress ing = true) ->
  statusLoop ingress ings = ingress.
Proof.
  induction ings as [|ing rest IH]; intros ingress Hall; simpl; [reflexivity |].
  rewrite (Hall ing (or_introl eq_refl)). apply IH. intros x Hx. apply Hall. now right.
Qed.

(** C9, as the spec has it, fails: the only entry of the status source
    [default/lb] is already on the status of [ns/app], and the reflector
    still issues the status write. *)
Lemma status_written_without_change :
  ~ (forall r ingress key svc h,
       lbSvcKey ingress = Some key ->
       Get_Service r key = inl svc ->
       (forall ing, In ing (Service.StatusIngress svc) ->
                    checkIngressLoadBalancerIngressExist ingress ing = true) ->
       snd (updateIngressStatus r ingress h) = h).
Proof.
  intros claim.
  specialize (claim Scenario.web Scenario.app (Scenario.key "default" "lb")
                Scenario.lbService []).
  assert (H : snd (updateIngressStatus Scenario.web Scenario.app []) = []).
  { apply claim; try reflexivity. intros ing [<- | []]. reflexivity. }
  vm_compute in H. discriminate H.
Qed.

(** C9, amended. Once the status source is resolved and fetched, the
    reflector skips every entry of it whose IP equals a non-empty IP or whose
    hostname equals a non-empty hostname already on the ingress status (the
    result is the same as without that entry), and then issues the status
    write in every case, with the status as the loop left it; when every
    entry is a duplicate the write carries the ingress unchanged. The only
    passes of the reflector without a write are those where no status source
    is configured or its lookup fails. *)
Theorem status_reflector r ingress h :
  (forall key svc,
     lbSvcKey ingress = Some key ->
     Get_Service r key = inl svc ->
     let written := statusLoop ingress (Service.StatusIngress svc) in
     updateIngressStatus r ingress h
     = (Status_Update r h written, h ++ [CallStatusUpdate written]) /\
     (forall pre ing post i,
        Service.StatusIngress svc = pre ++ ing :: post ->
        In i (Ingress.StatusIngress ingress) ->
        (IngressLoadBalancerIngress.IP i <> "" /\
         IngressLoadBalancerIngress.IP i = LoadBalancerIngress.IP ing) \/
        (IngressLoadBalancerIngress.Hostname i <> "" /\
         IngressLoadBalancerIngress.Hostname i = LoadBalancerIngress.Hostname ing) ->
        written = statusLoop ingress (pre ++ post)) /\
     ((forall ing, In ing (Service.StatusIngress svc) ->
                   checkIngressLoadBalancerIngressExist ingress ing = true) ->
      written = ingress)) /\
  (lbSvcKey ingress = None -> updateIngressStatus r ingress h = (None, h)) /\
  (forall key e,
     lbSvcKey ingress = Some key -> Get_Service r key = inr e ->
     updateIngressStatus r ingress h = (Some e, h)).
Proof.
  split; [| split].
  - intros key svc Hkey Hsvc written. split; [| split].
    + unfold updateIngressStatus. rewrite Hkey, Hsvc. reflexivity.
    + intros pre ing post i Hst Hin Hdup. unfold written. rewrite Hst.
      apply statusLoop_skip, checkExist_iff. exists i. split; assumption.
    + intros Hall. now apply statusLoop_all_known.
  - intros Hkey. unfold updateIngressStatus. now rewrite Hkey.
  - intros key e Hkey Hsvc. unfold updateIngressStatus. now rewrite Hkey, Hsvc.
Qed.

Lemma status_reflector_witness :
  updateIngressStatus Scenario.web Scenario.app []
  = (None, [CallStatusUpdate Scenario.app]).
Proof.
  destruct (proj1 (status_reflector Scenario.web Scenario.app [])
              (Scenario.key "default" "lb") Scenario.lbService eq_refl eq_refl)
    as (Hwrite & _ & Hsame).
  rewrite Hwrite. rewrite Hsame; [reflexivity |].
  intros ing [<- | []]. reflexivity.
Defined.

(** * Further properties of the code *)

(** ** The two builders, as functions of their input *)

Lemma checkTLSHost_In host TLS :
  checkTLSHost host TLS = true <->
  exists tls, In tls TLS /\ In host (IngressTLS.Hosts tls).
Proof.
  unfold checkTLSHost. rewrite existsb_exists. split.
  - intros (tls & Hin & Hex). apply existsb_exists in Hex as (h & Hh & Heq).
    apply String.eqb_eq in Heq. subst h. eauto.
  - intros (tls & Hin & Hh). exists tls. split; [exact Hin |].
    apply existsb_exists. exists host. split; [exact Hh | apply String.eqb_refl].
Qed.

(** X1. A model of the path-routed builder is in the TLS class (key
    [ns_name_https], exposed port 443, security flag 1) exactly when its host
    is, letter for letter, one of the hosts of some TLS block of the ingress;
    there is no wildcard or suffix matching. *)
Theorem tls_class_is_literal_membership r ingress models err m :
  createLoxiModelList r ingress = (models, err) ->
  In m models ->
  let listed := exists tls, In tls (Ingress.TLS ingress) /\
                  In (LoadBalancerService.Host (LoadBalancerModel.Service m))
                     (IngressTLS.Hosts tls) in
  (listed <-> keyOf m = Ingress.Namespace ingress +:+ "_" +:+ Ingress.Name ingress +:+ "_https")
  /\ (listed <-> LoadBalancerService.Port (LoadBalancerModel.Service m) = 443%Z)
  /\ (listed <-> LoadBalancerService.Security (LoadBalancerModel.Service m) = 1%Z).
Proof.
  intros Hrun Hin.
  destruct (createLoxiModelList_In _ _ _ _ _ Hrun Hin)
    as (rule & http & _ & _ & path & service & loxiep & _ & _ & _ & ->).
  destruct (ruleService_fields r ingress rule) as (Hname & Hsec & Hport & Hhost).
  cbn zeta in *. unfold keyOf. cbn [LoadBalancerModel.Service].
  rewrite Hhost, Hname, Hsec, Hport, <- checkTLSHost_In.
  pose proof (ruleName_neq_HTTPS (Ingress.Namespace ingress) (Ingress.Name ingress)) as Hne.
  destruct (checkTLSHost (IngressRule.Host rule) (Ingress.TLS ingress)).
  - repeat split; auto.
  - repeat split; intros H; try discriminate H; congruence.
Qed.

Lemma tls_class_is_literal_membership_witness :
  (exists tls, In tls (Ingress.TLS Scenario.app) /\ In "b.com" (IngressTLS.Hosts tls)) <->
  keyOf Scenario.appHTTPS = "ns_app_https".
Proof.
  refine (proj1 (tls_class_is_literal_membership Scenario.web Scenario.app
                   [Scenario.appPlain; Scenario.appHTTPS] None Scenario.appHTTPS _ _)).
  - vm_compute. reflexivity.
  - simpl. auto.
Defined.

Section PathBuilderShape.
Variable r : LoxilbIngressReconciler.
Variable ingress : Ingress.t.

Let resolves (b : IngressRule.t * IngressServiceBackend.t) : Prop :=
  snd (backendEndpoints r ingress (snd b)) = None.

Lemma backendsLoop_ok bs : forall models,
  (forall b, In b bs -> resolves b) ->
  backendsLoop r ingress bs models = (models ++ map (backendModel r ingress) bs, None).
Proof.
  induction bs as [|[rule service] rest IH]; intros models Hall; simpl.
  - now rewrite app_nil_r.
  - pose proof (Hall (rule, service) (or_introl eq_refl)) as Hb. unfold resolves in Hb.
    simpl in Hb. unfold backendModel at 1. simpl.
    destruct (backendEndpoints r ingress service) as [loxiep [e|]]; [discriminate |].
    rewrite IH by (intros b Hin; apply Hall; now right).
    now rewrite <- app_assoc.
Qed.

Lemma backendsLoop_fail pre rule service post e : forall models,
  (forall b, In b pre -> resolves b) ->
  snd (backendEndpoints r ingress service) = Some e ->
  backendsLoop r ingress (pre ++ (rule, service) :: post) models
  = (models ++ map (backendModel r ingress) pre, Some e).
Proof.
  intros models Hpre Hb. rewrite backendsLoop_app, (backendsLoop_ok pre models Hpre). simpl.
  destruct (backendEndpoints r ingress service) as [loxiep [e'|]]; simpl in Hb; congruence.
Qed.

(** Either every backend resolves or there is a first one that does not. *)
Lemma first_failure bs :
  (forall b, In b bs -> resolves b) \/
  exists pre rule service post e,
    bs = pre ++ (rule, service) :: post /\
    (forall b, In b pre -> resolves b) /\
    snd (backendEndpoints r ingress service) = Some e.
Proof.
  induction bs as [|[rule service] rest IH].
  - left. intros b [].
  - destruct (snd (backendEndpoints r ingress service)) as [e|] eqn:Hb.
    + right. exists [], rule, service, rest, e. repeat split; auto. intros b [].
    + destruct IH as [Hall | (pre & rl & sv & post & e & -> & Hpre & He)].
      * left. intros b [<- | Hin]; [exact Hb | now apply Hall].
      * right. exists ((rule, service) :: pre), rl, sv, post, e. repeat split; auto.
        intros b [<- | Hin]; [exact Hb | now apply Hpre].
Qed.

(** X2. The path-routed builder succeeds exactly when the resolver succeeds
    on every service backend of the ingress, and then returns one model per
    service backend, in the order of the rules and paths: the service half of
    the backend's rule with the endpoints the resolver gave for the backend.
    An ingress without any service backend gives the empty list without
    error. *)
Theorem path_builder_success models :
  createLoxiModelList r ingress = (models, None) <->
  (forall rule service, In (rule, service) (backendsOf ingress) ->
                        snd (backendEndpoints r ingress service) = None) /\
  models = map (backendModel r ingress) (backendsOf ingress).
Proof.
  rewrite createLoxiModelList_flat. split.
  - intros Hrun.
    destruct (first_failure (backendsOf ingress))
      as [Hall | (pre & rl & sv & post & e & Heq & Hpre & He)].
    + rewrite (backendsLoop_ok _ [] Hall) in Hrun. injection Hrun as <-.
      split; [| reflexivity]. intros rule service Hin. exact (Hall _ Hin).
    + rewrite Heq, (backendsLoop_fail pre rl sv post e [] Hpre He) in Hrun. discriminate Hrun.
  - intros [Hall ->].
    rewrite (backendsLoop_ok _ []); [reflexivity |].
    intros [rule service] Hin. exact (Hall rule service Hin).
Qed.

(** X3. The path-routed builder fails with [e] exactly when [e] is the
    resolver's error at the first service backend it cannot resolve; what it
    returns beside the error are the models of the backends before that one,
    and no backend after it is looked at. *)
Theorem path_builder_failure models e :
  createLoxiModelList r ingress = (models, Some e) <->
  exists pre rule service post,
    backendsOf ingress = pre ++ (rule, service) :: post /\
    (forall rl s, In (rl, s) pre -> snd (backendEndpoints r ingress s) = None) /\
    snd (backendEndpoints r ingress service) = Some e /\
    models = map (backendModel r ingress) pre.
Proof.
  rewrite createLoxiModelList_flat. split.
  - intros Hrun.
    destruct (first_failure (backendsOf ingress))
      as [Hall | (pre & rl & sv & post & e' & Heq & Hpre & He)].
    + rewrite (backendsLoop_ok _ [] Hall) in Hrun. discriminate Hrun.
    + rewrite Heq, (backendsLoop_fail pre rl sv post e' [] Hpre He) in Hrun.
      injection Hrun as <- <-. exists pre, rl, sv, post. repeat split; auto.
      intros rl' s' Hin. exact (Hpre _ Hin).
  - intros (pre & rule & service & post & Heq & Hpre & He & ->).
    rewrite Heq. apply (backendsLoop_fail pre rule service post e []); [| exact He].
    intros [rl s] Hin. exact (Hpre rl s Hin).
Qed.

End PathBuilderShape.

(** ** C10: rules without HTTP section *)

(** Where a pair of [backendsOf] comes from. *)
Lemma backendsOf_In ingress rl s :
  In (rl, s) (backendsOf ingress) <->
  In rl (Ingress.Rules ingress) /\
  exists http path,
    IngressRule.HTTP rl = Some http /\
    In path (HTTPIngressRuleValue.Paths http) /\
    IngressBackend.Service (HTTPIngressPath.Backend path) = Some s.
Proof.
  unfold backendsOf. rewrite in_flat_map. split.
  - intros (rule & Hr & Hin).
    destruct (IngressRule.HTTP rule) as [http|] eqn:Hh; [| destruct Hin].
    apply in_flat_map in Hin as (path & Hp & Hin).
    destruct (IngressBackend.Service (HTTPIngressPath.Backend path)) as [service|] eqn:Hs;
      [| destruct Hin].
    destruct Hin as [Heq | []]. injection Heq as <- <-.
    split; [exact Hr |]. exists http, path. auto.
  - intros (Hr & http & path & Hh & Hp & Hs). exists rl. split; [exact Hr |].
    rewrite Hh. apply in_flat_map. exists path. split; [exact Hp |]. rewrite Hs. now left.
Qed.

(** A rule without HTTP section adds no service backend. *)
Lemma backendsOf_skip_nil ingress pre rule post :
  Ingress.Rules ingress = pre ++ rule :: post ->
  IngressRule.HTTP rule = None ->
  backendsOf ingress = backendsOf (Ingress.withRules ingress (pre ++ post)).
Proof.
  intros Hrules Hnil. unfold backendsOf. cbn [Ingress.withRules Ingress.Rules].
  rewrite Hrules, !flat_map_app. cbn [flat_map]. now rewrite Hnil.
Qed.

Lemma backendsLoop_none_iff r ingress bs models :
  backendsLoop r ingress bs [] = (models, None) <->
  (forall rl s, In (rl, s) bs -> snd (backendEndpoints r ingress s) = None) /\
  models = map (backendModel r ingress) bs.
Proof.
  split.
  - intros Hrun.
    destruct (first_failure r ingress bs)
      as [Hall | (pre & rl & sv & post & e & Heq & Hpre & He)].
    + rewrite (backendsLoop_ok r ingress _ [] Hall) in Hrun. injection Hrun as <-.
      split; [| reflexivity]. intros rule service Hin. exact (Hall _ Hin).
    + rewrite Heq, (backendsLoop_fail r ingress pre rl sv post e [] Hpre He) in Hrun.
      discriminate Hrun.
  - intros [Hall ->].
    rewrite (backendsLoop_ok r ingress _ []); [reflexivity |].
    intros [rule service] Hin. exact (Hall rule service Hin).
Qed.

Lemma backendsLoop_some_iff r ingress bs models e :
  backendsLoop r ingress bs [] = (models, Some e) <->
  exists pre rule service post,
    bs = pre ++ (rule, service) :: post /\
    (forall rl s, In (rl, s) pre -> snd (backendEndpoints r ingress s) = None) /\
    snd (backendEndpoints r ingress service) = Some e /\
    models = map (backendModel r ingress) pre.
Proof.
  split.
  - intros Hrun.
    destruct (first_failure r ingress bs)
      as [Hall | (pre & rl & sv & post & e' & Heq & Hpre & He)].
    + rewrite (backendsLoop_ok r ingress _ [] Hall) in Hrun. discriminate Hrun.
    + rewrite Heq, (backendsLoop_fail r ingress pre rl sv post e' [] Hpre He) in Hrun.
      injection Hrun as <- <-. exists pre, rl, sv, post. repeat split; auto.
      intros rl' s' Hin. exact (Hpre _ Hin).
  - intros (pre & rule & service & post & Heq & Hpre & He & ->).
    rewrite Heq. apply (backendsLoop_fail r ingress pre rule service post e []); [| exact He].
    intros [rl s] Hin. exact (Hpre rl s Hin).
Qed.

(** C10. Let [rule] be a rule of the ingress whose HTTP section is nil, with
    the rules [pre] before it and [post] after it, and let [rest] be the
    service backends of the rules of [pre] and [post], in order (they are
    the service-backed paths of those rules that have an HTTP section; [rule]
    gives none). Then [rule] is skipped silently and the other rules are
    processed: the builder succeeds exactly when the resolver succeeds on
    every backend of [rest], and then returns one model per backend of
    [rest], in order; it fails exactly with the resolver's error at the first
    backend of [rest] that does not resolve, returning the models before it;
    so no model and no error ever comes from [rule]. In particular the
    result is the one for the ingress without [rule], and an ingress whose
    only rule has no HTTP section gives no model and no error. *)
Theorem nil_http_rule_skipped r ingress pre rule post :
  Ingress.Rules ingress = pre ++ rule :: post ->
  IngressRule.HTTP rule = None ->
  let rest := backendsOf (Ingress.withRules ingress (pre ++ post)) in
  (forall rl s,
     In (rl, s) rest <->
     In rl (pre ++ post) /\
     exists http path,
       IngressRule.HTTP rl = Some http /\
       In path (HTTPIngressRuleValue.Paths http) /\
       IngressBackend.Service (HTTPIngressPath.Backend path) = Some s) /\
  (forall models,
     createLoxiModelList r ingress = (models, None) <->
     (forall rl s, In (rl, s) rest -> snd (backendEndpoints r ingress s) = None) /\
     models = map (backendModel r ingress) rest) /\
  (forall models e,
     createLoxiModelList r ingress = (models, Some e) <->
     exists before rl s after,
       rest = before ++ (rl, s) :: after /\
       (forall rl' s', In (rl', s') before -> snd (backendEndpoints r ingress s') = None) /\
       snd (backendEndpoints r ingress s) = Some e /\
       models = map (backendModel r ingress) before) /\
  createLoxiModelList r ingress
  = createLoxiModelList r (Ingress.withRules ingress (pre ++ post)) /\
  createLoxiModelList r (Ingress.withRules ingress [rule]) = ([], None).
Proof.
  intros Hrules Hnil rest.
  assert (Hflat : createLoxiModelList r ingress = backendsLoop r ingress rest []).
  { rewrite createLoxiModelList_flat. unfold rest.
    now rewrite (backendsOf_skip_nil ingress pre rule post Hrules Hnil). }
  split; [| split; [| split; [| split]]].
  - intros rl s. unfold rest. rewrite backendsOf_In. reflexivity.
  - intros models. rewrite Hflat. apply backendsLoop_none_iff.
  - intros models e. rewrite Hflat. apply backendsLoop_some_iff.
  - unfold createLoxiModelList. rewrite Hrules. cbn [Ingress.withRules Ingress.Rules].
    rewrite rulesLoop_withRules. now apply rulesLoop_skip_nil.
  - unfold createLoxiModelList. cbn [Ingress.withRules Ingress.Rules rulesLoop].
    now rewrite Hnil.
Qed.

Lemma nil_http_rule_skipped_witness :
  createLoxiModelList Scenario.web Scenario.app
  = ([Scenario.appPlain; Scenario.appHTTPS], None).
Proof.
  destruct (nil_http_rule_skipped Scenario.web Scenario.app
            [ {| IngressRule.Host := "a.com";
                 IngressRule.HTTP :=
                   Some {| HTTPIngressRuleValue.Paths := [Scenario.pathTo "/" "svc" 8080] |} |} ]
            {| IngressRule.Host := "c.com"; IngressRule.HTTP := None |}
            [ {| IngressRule.Host := "b.com";
                 IngressRule.HTTP :=
                   Some {| HTTPIngressRuleValue.Paths :=
                             [Scenario.pathTo "/api" "svc" 8080] |} |} ]
            eq_refl eq_refl) as (_ & Hok & _).
  apply (proj2 (Hok [Scenario.appPlain; Scenario.appHTTPS])). split.
  - intros rl s [H | [H | []]]; injection H as <- <-; reflexivity.
  - reflexivity.
Defined.

Lemma path_builder_success_witness :
  [Scenario.appPlain; Scenario.appHTTPS]
  = map (backendModel Scenario.web Scenario.app) (backendsOf Scenario.app).
Proof.
  refine (proj2 (proj1 (path_builder_success Scenario.web Scenario.app
                          [Scenario.appPlain; Scenario.appHTTPS]) _)).
  vm_compute. reflexivity.
Defined.

Lemma path_builder_failure_witness :
  createLoxiModelList Scenario.idle Scenario.app = ([], Some (noEndpointsError "ns" "svc")).
Proof.
  apply (proj2 (path_builder_failure Scenario.idle Scenario.app []
                  (noEndpointsError "ns" "svc"))).
  exists [],
    {| IngressRule.Host := "a.com";
       IngressRule.HTTP :=
         Some {| HTTPIngressRuleValue.Paths := [Scenario.pathTo "/" "svc" 8080] |} |},
    {| IngressServiceBackend.Name := "svc";
       IngressServiceBackend.Port :=
         {| ServiceBackendPort.Name := ""; ServiceBackendPort.Number := 8080 |} |},
    [ ({| IngressRule.Host := "b.com";
          IngressRule.HTTP :=
            Some {| HTTPIngressRuleValue.Paths := [Scenario.pathTo "/api" "svc" 8080] |} |},
       {| IngressServiceBackend.Name := "svc";
          IngressServiceBackend.Port :=
            {| ServiceBackendPort.Name := ""; ServiceBackendPort.Number := 8080 |} |}) ].
  split; [reflexivity |]. split; [intros rl s [] |]. split; reflexivity.
Defined.

Lemma directPortsLoop_services r svc svcNs svcName lbName selStr ports :
  forall models res,
  directPortsLoop r svc svcNs svcName lbName selStr ports models = (res, None) ->
  map LoadBalancerModel.Service res
  = map LoadBalancerModel.Service models
    ++ map (fun port => createDirectLoxiLoadBalancerService svcNs lbName "0.0.0.0"
                          (ServicePort.Protocol port) "" selStr (ServicePort.Port port))
           ports.
Proof.
  induction ports as [|port rest IH]; intros models res Hrun; simpl in Hrun.
  - injection Hrun as <-. simpl. now rewrite app_nil_r.
  - destruct (GetServicePortIntValue r svc port) as [targetPortNum [e|]]; [discriminate |].
    destruct (createLoxiLoadBalancerEndpointsWithTargetPort r svcNs svcName targetPortNum)
      as [loxiep [e|]]; [discriminate |].
    rewrite (IH _ _ Hrun), map_app. simpl. now rewrite <- app_assoc.
Qed.

(** X4. When the direct builder succeeds, the target service was found and
    the models are, port for port and in order, the ports of that service:
    each exposed on 0.0.0.0 at the port's number (cut to 16 bits), with the
    lower-cased protocol, mode 4, no host, security 0 and the selection
    policy of the annotation; all of them share the one key made of the
    target namespace and the ingress name. *)
Theorem direct_builder_success r ingress models :
  createDirectLoxiModelList r ingress = (models, None) ->
  exists svcName svc,
    Ingress.Annotations ingress !! "loxilb.io/direct-loadbalance-service" = Some svcName /\
    Get_Service r {| NamespacedName.Namespace := directNamespace ingress;
                     NamespacedName.Name := svcName |} = inl svc /\
    map LoadBalancerModel.Service models = map (directService ingress) (Service.Ports svc) /\
    length models = length (Service.Ports svc) /\
    forall m, In m models ->
      keyOf m = Sprintf_s_s (directNamespace ingress) (Ingress.Name ingress) /\
      LoadBalancerService.ExternalIP (LoadBalancerModel.Service m) = "0.0.0.0" /\
      LoadBalancerService.Mode (LoadBalancerModel.Service m) = 4%Z /\
      LoadBalancerService.Security (LoadBalancerModel.Service m) = 0%Z /\
      LoadBalancerService.Host (LoadBalancerModel.Service m) = "" /\
      LoadBalancerService.Sel (LoadBalancerModel.Service m) = selOf (directSelStr ingress).
Proof.
  unfold createDirectLoxiModelList. intros Hrun.
  destruct (Ingress.Annotations ingress !! "loxilb.io/direct-loadbalance-service")
    as [svcName|]; [| discriminate].
  fold (directNamespace ingress) (directSelStr ingress) in Hrun.
  destruct (Get_Service r _) as [svc | e] eqn:Hsvc; [| discriminate].
  apply directPortsLoop_services in Hrun. simpl in Hrun.
  change (map _ (Service.Ports svc)) with (map (directService ingress) (Service.Ports svc))
    in Hrun.
  exists svcName, svc. split; [reflexivity |]. split; [exact Hsvc |].
  split; [exact Hrun |]. split.
  - apply (f_equal (@length _)) in Hrun. now rewrite !length_map in Hrun.
  - intros m Hin. apply (in_map LoadBalancerModel.Service) in Hin.
    rewrite Hrun in Hin. apply in_map_iff in Hin as (port & Heq & _).
    unfold keyOf. rewrite <- Heq. repeat split; reflexivity.
Qed.

Lemma direct_builder_success_witness :
  exists svcName svc,
    Ingress.Annotations Scenario.appDirect !! "loxilb.io/direct-loadbalance-service"
    = Some svcName /\
    Get_Service Scenario.direct
      {| NamespacedName.Namespace := directNamespace Scenario.appDirect;
         NamespacedName.Name := svcName |} = inl svc /\
    map LoadBalancerModel.Service [Scenario.directRule]
    = map (directService Scenario.appDirect) (Service.Ports svc).
Proof.
  destruct (direct_builder_success Scenario.direct Scenario.appDirect [Scenario.directRule])
    as (svcName & svc & Hann & Hsvc & Hmap & _).
  - vm_compute. reflexivity.
  - exists svcName, svc. repeat split; assumption.
Defined.

(** ** Target port resolution *)

(** X5. A target port with a non-zero integer value (a number, or a string
    that reads as a decimal number) resolves to that value, cut to 32 bits,
    without the pods being consulted: the answer is the same whatever the pod
    listing returns, even an error. *)
Theorem numeric_target_port_needs_no_pods r svc port :
  IntOrString.IntValue (ServicePort.TargetPort port) <> 0%Z ->
  GetServicePortIntValue r svc port
  = (int32 (IntOrString.IntValue (ServicePort.TargetPort port)), None) /\
  forall r', GetServicePortIntValue r' svc port = GetServicePortIntValue r svc port.
Proof.
  intros Hnz. apply Z.eqb_neq in Hnz.
  split; [| intros r']; unfold GetServicePortIntValue; now rewrite Hnz.
Qed.

Lemma numeric_target_port_needs_no_pods_witness :
  GetServicePortIntValue Scenario.web Scenario.svc2
    {| ServicePort.Protocol := "TCP"; ServicePort.Port := 80;
       ServicePort.TargetPort := IntOrString.Str "8080" |}
  = (8080%Z, None).
Proof.
  refine (proj1 (numeric_target_port_needs_no_pods Scenario.web Scenario.svc2
                   {| ServicePort.Protocol := "TCP"; ServicePort.Port := 80;
                      ServicePort.TargetPort := IntOrString.Str "8080" |} _)).
  vm_compute. discriminate.
Defined.

(** X6. A target port whose integer value is 0 (a name, or the number 0) is
    looked up by its string among the container ports of the listed pods, in
    pod, container and port order: the first container port of that name
    gives the result, and when no container port has that name the lookup
    fails with the message that names the port and the service. *)
Theorem named_target_port_first_match r svc port pods :
  IntOrString.IntValue (ServicePort.TargetPort port) = 0%Z ->
  List_Pods r (Service.Selector svc) = inl pods ->
  let name := IntOrString.String (ServicePort.TargetPort port) in
  (forall pre cp post,
     containerPorts pods = pre ++ cp :: post ->
     ContainerPort.Name cp = name ->
     (forall x, In x pre -> ContainerPort.Name x <> name) ->
     GetServicePortIntValue r svc port = (ContainerPort.ContainerPort cp, None)) /\
  ((forall x, In x (containerPorts pods) -> ContainerPort.Name x <> name) ->
   GetServicePortIntValue r svc port
   = (0%Z, Some (Errorf ("not found port name " +:+ name +:+ " in service "
                         +:+ Service.Name svc)))).
Proof.
  intros Hz Hpods name. unfold GetServicePortIntValue. rewrite Hz, Hpods. simpl. fold name.
  split.
  - intros pre cp post Heq Hname Hpre. rewrite Heq.
    assert (Hfind : forall l, (forall x, In x l -> ContainerPort.Name x <> name) ->
              find (fun p => String.eqb (ContainerPort.Name p) name) (l ++ cp :: post)
              = Some cp).
    { induction l as [|x l IH]; intros Hl; simpl.
      - rewrite Hname, String.eqb_refl. reflexivity.
      - pose proof (Hl x (or_introl eq_refl)) as Hx. apply String.eqb_neq in Hx.
        rewrite Hx. apply IH. intros y Hy. apply Hl. now right. }
    now rewrite (Hfind pre Hpre).
  - intros Hnone.
    destruct (find (fun p => String.eqb (ContainerPort.Name p) name) (containerPorts pods))
      as [cp|] eqn:Hfind; [| reflexivity].
    apply find_some in Hfind as [Hin Heq]. apply String.eqb_eq in Heq.
    now apply Hnone in Hin.
Qed.

Lemma named_target_port_first_match_witness :
  GetServicePortIntValue Scenario.direct Scenario.svc2
    {| ServicePort.Protocol := "TCP"; ServicePort.Port := 9090;
       ServicePort.TargetPort := IntOrString.Str "web" |}
  = (9090%Z, None).
Proof.
  refine (proj1 (named_target_port_first_match Scenario.direct Scenario.svc2
                   {| ServicePort.Protocol := "TCP"; ServicePort.Port := 9090;
                      ServicePort.TargetPort := IntOrString.Str "web" |}
                   [Scenario.webPod] _ _)
            [] {| ContainerPort.Name := "web"; ContainerPort.ContainerPort := 9090 |} []
            _ _ _).
  - reflexivity.
  - reflexivity.
  - reflexivity.
  - reflexivity.
  - intros x [].
Defined.

(** ** Endpoints *)





(** ** The pass: what it issues and how it ends *)

(** The creates of a pass are for models the differ kept. *)
Lemma pass_creates_are_candidates r req h items ingress models calls m :
  LoadBalancer_List r h = inl items ->
  Get_Ingress r req = inl ingress ->
  buildModels r ingress = (models, None) ->
  snd (Reconcile r req h) = h ++ calls ->
  In (CallCreate m) calls ->
  In m (diffModels models items).
Proof.
  intros Hlist Hget Hbuild Htrace Hin.
  rewrite Reconcile_eq in Htrace. cbn zeta in Htrace.
  rewrite Hlist, Hget, Hbuild in Htrace.
  assert (Hcreates : forall att, incl att (diffModels models items) ->
            forall tail,
            (tail = [] \/ exists w, tail = [CallStatusUpdate w]) ->
            calls = CallList :: map CallCreate att ++ tail ->
            In m (diffModels models items)).
  { intros att Hincl tail Htail ->.
    destruct Hin as [H | Hin]; [discriminate H |].
    apply in_app_or in Hin as [Hin | Hin].
    - apply in_map_iff in Hin as (x & Hx & Hatt). injection Hx as ->. now apply Hincl.
    - destruct Htail as [-> | (w & ->)]; [destruct Hin |].
      destruct Hin as [H | []]. discriminate H. }
  destruct (diffModels models items) as [|m0 ms] eqn:Hd.
  - simpl in Htrace. apply app_inv_head in Htrace. subst calls.
    destruct Hin as [H | []]. discriminate H.
  - destruct (applyLoop_calls r (m0 :: ms) (h ++ [CallList])) as (att & Heq & Hincl).
    destruct (applyLoop r (m0 :: ms) (h ++ [CallList])) as [[e|] h1]; simpl in Heq; subst h1.
    + cbn [snd] in Htrace. rewrite <- app_assoc in Htrace. apply app_inv_head in Htrace.
      apply (Hcreates att Hincl []); [now left |].
      rewrite app_nil_r. now symmetry.
    + cbn [snd] in Htrace.
      destruct (updateIngressStatus_calls r ingress ((h ++ [CallList]) ++ map CallCreate att))
        as [Hs | (w & Hs)]; rewrite Hs in Htrace.
      * rewrite <- app_assoc in Htrace. apply app_inv_head in Htrace.
        apply (Hcreates att Hincl []); [now left |].
        rewrite app_nil_r. now symmetry.
      * rewrite <- !app_assoc in Htrace. apply app_inv_head in Htrace.
        apply (Hcreates att Hincl [CallStatusUpdate w]); [right; eauto |].
        now symmetry.
Qed.

(** X8. A desired model is not created again when the snapshot holds a rule
    of the same key whose (address, target port) pairs are those of the
    model in any order, whatever host, exposed port, security flag, policy
    or weights that rule has: the differ leaves it out of the create list
    and the pass issues no create for it, whether or not other models are
    created. When this holds of every desired model the pass issues the list
    call only and asks to be run again in 30 seconds. *)
Theorem settled_rules_are_left_alone r req h items ingress models :
  LoadBalancer_List r h = inl items ->
  Get_Ingress r req = inl ingress ->
  buildModels r ingress = (models, None) ->
  (forall m, In m models ->
     (exists item, In item items /\ keyOf item = keyOf m /\
                   Permutation (pairs m) (pairs item)) ->
     ~ In m (diffModels models items) /\
     forall calls, snd (Reconcile r req h) = h ++ calls -> ~ In (CallCreate m) calls) /\
  ((forall m, In m models ->
      exists item, In item items /\ keyOf item = keyOf m /\
                   Permutation (pairs m) (pairs item)) ->
   Reconcile r req h = ((requeue30, None), h ++ [CallList])).
Proof.
  intros Hlist Hget Hbuild.
  assert (Hmatch : forall m item, keyOf item = keyOf m -> Permutation (pairs m) (pairs item) ->
            modelMatches m item = true).
  { intros m item Hkey Hperm. apply modelMatches_iff. repeat split.
    - exact Hkey.
    - apply Permutation_length in Hperm. unfold pairs in Hperm.
      rewrite !length_map in Hperm. lia.
    - intros p. now apply Permutation_in. }
  split.
  - intros m Hin (item & Hitem & Hkey & Hperm).
    assert (Hout : ~ In m (diffModels models items)).
    { intros Hd. apply diffModels_In in Hd as [_ Hno].
      specialize (Hno item Hitem). rewrite (Hmatch m item Hkey Hperm) in Hno.
      discriminate Hno. }
    split; [exact Hout |].
    intros calls Htrace Hcreate. apply Hout.
    exact (pass_creates_are_candidates r req h items ingress models calls m
             Hlist Hget Hbuild Htrace Hcreate).
  - intros Hall.
    apply (matched_pass_issues_no_create r req h items ingress models); try assumption.
    intros m Hin. destruct (Hall m Hin) as (item & Hitem & Hkey & Hperm).
    exists item. split; [exact Hitem | now apply Hmatch].
Qed.

Lemma settled_rules_are_left_alone_witness :
  ~ In (CallCreate Scenario.appPlain)
       [CallList; CallCreate Scenario.appHTTPS; CallStatusUpdate Scenario.app] /\
  Reconcile Cases.converged (Scenario.key "ns" "app") [] = ((requeue30, None), [CallList]).
Proof.
  split.
  - destruct (settled_rules_are_left_alone Cases.halfSettled (Scenario.key "ns" "app") []
                [ Scenario.rule "ns_app" 8080 0 "old.example.com"
                    [Scenario.ep "10.0.0.6" 8080; Scenario.ep "10.0.0.5" 8080] ]
                Scenario.app [Scenario.appPlain; Scenario.appHTTPS]) as [Hper _].
    + reflexivity.
    + reflexivity.
    + vm_compute. reflexivity.
    + destruct (Hper Scenario.appPlain) as [_ Hno].
      * simpl. auto.
      * eexists. split; [left; reflexivity |]. split; [reflexivity | apply perm_swap].
      * apply Hno. vm_compute. reflexivity.
  - destruct (settled_rules_are_left_alone Cases.converged (Scenario.key "ns" "app") []
                [ Scenario.rule "ns_app" 8080 0 "old.example.com"
                    [Scenario.ep "10.0.0.6" 8080; Scenario.ep "10.0.0.5" 8080];
                  Scenario.appHTTPS ]
                Scenario.app [Scenario.appPlain; Scenario.appHTTPS]) as [_ Hall].
    + reflexivity.
    + reflexivity.
    + vm_compute. reflexivity.
    + apply Hall. intros m [<- | [<- | []]].
      * eexists. split; [left; reflexivity |]. split; [reflexivity | apply perm_swap].
      * eexists. split; [right; left; reflexivity |].
        split; [reflexivity | apply Permutation_refl].
Defined.

Lemma diffModels_empty_snapshot models : diffModels models [] = models.
Proof.
  unfold diffModels. induction models as [|m ms IH]; simpl in *; [reflexivity |].
  f_equal. exact IH.
Qed.

(** X9. Against a load balancer that lists no rule and accepts every create,
    a pass on an ingress with at least one desired model creates every model
    the builder returned, in the builder's order, then runs the status
    update, and asks to be run again in 30 seconds. *)
Theorem first_pass_installs_every_model r req h ingress models :
  LoadBalancer_List r h = inl [] ->
  Get_Ingress r req = inl ingress ->
  buildModels r ingress = (models, None) ->
  models <> [] ->
  (forall h' m, LoadBalancer_Create r h' m = None) ->
  Reconcile r req h
  = ((requeue30, None),
     snd (updateIngressStatus r ingress (h ++ [CallList] ++ map CallCreate models))).
Proof.
  intros Hlist Hget Hbuild Hne Hcreate. rewrite Reconcile_eq. cbn zeta.
  rewrite Hlist, Hget, Hbuild, diffModels_empty_snapshot.
  assert (Hrun : applyLoop r models (h ++ [CallList])
                 = (None, (h ++ [CallList]) ++ map CallCreate models)).
  { rewrite <- (app_nil_r models) at 1.
    rewrite (applyLoop_run_swallowed r models [] (h ++ [CallList])); [reflexivity |].
    intros p1 x p2 _. left. apply Hcreate. }
  destruct models as [|m ms]; [congruence |].
  rewrite Hrun. now rewrite <- app_assoc.
Qed.

Lemma first_pass_installs_every_model_witness :
  Reconcile Scenario.web (Scenario.key "ns" "app") []
  = ((requeue30, None),
     [CallList; CallCreate Scenario.appPlain; CallCreate Scenario.appHTTPS;
      CallStatusUpdate Scenario.app]).
Proof.
  refine (first_pass_installs_every_model Scenario.web (Scenario.key "ns" "app") []
            Scenario.app [Scenario.appPlain; Scenario.appHTTPS] _ _ _ _ _).
  - reflexivity.
  - reflexivity.
  - vm_compute. reflexivity.
  - discriminate.
  - reflexivity.
Defined.

(** X10. Every pass ends in one of three ways: without error and with a
    30-second requeue, and then the ingress was found; without error and
    without requeue, and then the ingress was reported not-found; or with an
    error and without requeue. *)
Theorem pass_outcome r req h :
  (fst (Reconcile r req h) = (requeue30, None) /\
   exists ingress, Get_Ingress r req = inl ingress) \/
  (fst (Reconcile r req h) = (noResult, None) /\
   exists err, Get_Ingress r req = inr err /\ IsNotFound err = true) \/
  (exists e, fst (Reconcile r req h) = (noResult, Some e)).
Proof.
  rewrite Reconcile_eq. cbn zeta.
  destruct (LoadBalancer_List r h) as [items | err]; [| right; right; eauto].
  destruct (Get_Ingress r req) as [ingress | err].
  - destruct (buildModels r ingress) as [models [e|]]; [right; right; eauto |].
    destruct (diffModels models items) as [|m ms]; [left; eauto |].
    destruct (applyLoop r (m :: ms) (h ++ [CallList])) as [[e|] h1];
      [right; right; eauto | left; eauto].
  - destruct (IsNotFound err) eqn:Hnf; [right; left; eauto | right; right; eauto].
Qed.

Lemma deleteCalls_members req items c :
  In c (deleteCalls req items) ->
  c = CallDeleteByName (ruleNameOf req) \/ c = CallDeleteByName (ruleNameHTTPSOf req).
Proof.
  unfold deleteCalls. intros Hin. apply in_app_or in Hin as [Hin | Hin].
  - destruct (installed (ruleNameOf req) items); [| destruct Hin].
    destruct Hin as [<- | []]. now left.
  - destruct (installed (ruleNameHTTPSOf req) items); [| destruct Hin].
    destruct Hin as [<- | []]. now right.
Qed.

(** The calls of a pass after its list call, by kind of pass. *)
Lemma pass_calls_cases r req h :
  exists calls,
    snd (Reconcile r req h) = h ++ CallList :: calls /\
    ((exists items, calls = deleteCalls req items) \/
     (exists attempted, calls = map CallCreate attempted) \/
     (exists attempted written,
        calls = map CallCreate attempted ++ [CallStatusUpdate written] /\
        fst (Reconcile r req h) = (requeue30, None))).
Proof.
  rewrite Reconcile_eq. cbn zeta.
  assert (Hnone : exists calls, h ++ [CallList] = h ++ CallList :: calls /\
            ((exists items, calls = deleteCalls req items) \/
             (exists attempted, calls = map CallCreate attempted) \/
             (exists attempted written,
                calls = map CallCreate attempted ++ [CallStatusUpdate written] /\
                @fst _ (list Call) ((requeue30, @None error), h) = (requeue30, None)))).
  { exists []. split; [reflexivity |]. right. left. now exists []. }
  destruct (LoadBalancer_List r h) as [items | err].
  2: { destruct Hnone as (calls & Heq & [H | [H | (a & w & H & _)]]); exists calls;
       (split; [exact Heq |]); [now left | right; now left |].
       exfalso. apply app_inv_head in Heq. injection Heq as <-. destruct a; discriminate H. }
  assert (Hdel : forall out, exists calls,
            snd (out : ctrl.Result * option error, (h ++ [CallList]) ++ deleteCalls req items)
            = h ++ CallList :: calls /\
            ((exists items, calls = deleteCalls req items) \/
             (exists attempted, calls = map CallCreate attempted) \/
             (exists attempted written,
                calls = map CallCreate attempted ++ [CallStatusUpdate written] /\
                fst (out, (h ++ [CallList]) ++ deleteCalls req items) = (requeue30, None)))).
  { intros out. exists (deleteCalls req items). split; [simpl; now rewrite <- app_assoc |].
    left. now exists items. }
  assert (Hlist : forall out, exists calls,
            snd (out : ctrl.Result * option error, h ++ [CallList]) = h ++ CallList :: calls /\
            ((exists items, calls = deleteCalls req items) \/
             (exists attempted, calls = map CallCreate attempted) \/
             (exists attempted written,
                calls = map CallCreate attempted ++ [CallStatusUpdate written] /\
                fst (out, h ++ [CallList]) = (requeue30, None)))).
  { intros out. exists []. split; [reflexivity |]. right. left. now exists []. }
  destruct (Get_Ingress r req) as [ingress | err];
    [| destruct (IsNotFound err); [apply Hdel | apply Hlist]].
  destruct (buildModels r ingress) as [models [e|]]; [apply Hdel |].
  destruct (diffModels models items) as [|m0 ms]; [apply Hlist |].
  destruct (applyLoop_calls r (m0 :: ms) (h ++ [CallList])) as (att & Heq & _).
  destruct (applyLoop r (m0 :: ms) (h ++ [CallList])) as [[e|] h1]; simpl in Heq; subst h1.
  - exists (map CallCreate att). split; [simpl; now rewrite <- app_assoc |].
    right. left. now exists att.
  - destruct (updateIngressStatus_calls r ingress ((h ++ [CallList]) ++ map CallCreate att))
      as [Hs | (w & Hs)]; cbn [snd fst]; rewrite Hs.
    + exists (map CallCreate att). split; [now rewrite <- app_assoc |].
      right. left. now exists att.
    + exists (map CallCreate att ++ [CallStatusUpdate w]).
      split; [now rewrite <- !app_assoc |]. right. right. now exists att, w.
Qed.

(** X11. Every pass issues exactly one list call, as its first call. The
    calls after it are of one of three shapes and no other: the deletions of
    those of the two keys of the request that some rule list holds (at most
    two, plain key first) and nothing else; or creates only; or creates
    followed by one status write as the last call, and then the pass ends
    without error with the 30-second requeue. So a pass never both deletes
    and creates, deletes only its two keys, writes the status at most once,
    only after all its creates, never in a deleting pass and only when it
    ends without error. *)
Theorem pass_calls r req h :
  exists calls,
    snd (Reconcile r req h) = h ++ CallList :: calls /\
    ((exists items, calls = deleteCalls req items) \/
     (exists attempted, calls = map CallCreate attempted) \/
     (exists attempted written,
        calls = map CallCreate attempted ++ [CallStatusUpdate written] /\
        fst (Reconcile r req h) = (requeue30, None))) /\
    ~ In CallList calls /\
    (forall name, In (CallDeleteByName name) calls ->
       (name = ruleNameOf req \/ name = ruleNameHTTPSOf req) /\
       (forall m, ~ In (CallCreate m) calls) /\
       (forall written, ~ In (CallStatusUpdate written) calls)) /\
    (forall written, In (CallStatusUpdate written) calls ->
       fst (Reconcile r req h) = (requeue30, None) /\
       exists attempted, calls = map CallCreate attempted ++ [CallStatusUpdate written]).
Proof.
  destruct (pass_calls_cases r req h) as (calls & Heq & Hshape).
  exists calls. split; [exact Heq |]. split; [exact Hshape |].
  destruct Hshape as [(items & ->) | [(att & ->) | (att & w & -> & Hout)]].
  - split; [| split].
    + intros Hin. apply deleteCalls_members in Hin as [H | H]; discriminate H.
    + intros name Hin. split; [| split].
      * apply deleteCalls_members in Hin as [H | H]; injection H as ->; auto.
      * intros m. apply deleteCalls_no_create.
      * intros w Hw. apply deleteCalls_members in Hw as [H | H]; discriminate H.
    + intros w Hin. apply deleteCalls_members in Hin as [H | H]; discriminate H.
  - split; [| split].
    + intros Hin. apply in_map_iff in Hin as (x & Hx & _). discriminate Hx.
    + intros name Hin. apply in_map_iff in Hin as (x & Hx & _). discriminate Hx.
    + intros w Hin. apply in_map_iff in Hin as (x & Hx & _). discriminate Hx.
  - split; [| split].
    + intros Hin. apply in_app_or in Hin as [Hin | [H | []]]; [| discriminate H].
      apply in_map_iff in Hin as (x & Hx & _). discriminate Hx.
    + intros name Hin. apply in_app_or in Hin as [Hin | [H | []]]; [| discriminate H].
      apply in_map_iff in Hin as (x & Hx & _). discriminate Hx.
    + intros w' Hin. split; [exact Hout |].
      apply in_app_or in Hin as [Hin | [H | []]].
      * apply in_map_iff in Hin as (x & Hx & _). discriminate Hx.
      * injection H as <-. now exists att.
Qed.

(** X12. When the load balancer cannot be listed, or the ingress cannot be
    fetched for a reason other than not-found, the pass returns that error
    and issues nothing beyond the list call: no rule is deleted on a
    transport error, whatever the snapshot holds. *)
Theorem transport_errors_delete_nothing r req h :
  (forall e, LoadBalancer_List r h = inr e ->
     Reconcile r req h = ((noResult, Some e), h ++ [CallList])) /\
  (forall items e,
     LoadBalancer_List r h = inl items ->
     Get_Ingress r req = inr e -> IsNotFound e = false ->
     Reconcile r req h = ((noResult, Some e), h ++ [CallList])).
Proof.
  split.
  - intros e Hlist. rewrite Reconcile_eq. cbn zeta. now rewrite Hlist.
  - intros items e Hlist Hget Hnf. rewrite Reconcile_eq. cbn zeta.
    now rewrite Hlist, Hget, Hnf.
Qed.

Lemma transport_errors_delete_nothing_witness :
  Reconcile Cases.unreachable (Scenario.key "ns" "app") []
  = ((noResult, Some Scenario.refused), [CallList]).
Proof.
  refine (proj1 (transport_errors_delete_nothing Cases.unreachable
                   (Scenario.key "ns" "app") []) Scenario.refused _).
  reflexivity.
Defined.

(** X13. In direct mode, when the target service cannot be fetched (it does
    not exist, or the lookup fails), the pass ends with the lookup's error
    after deleting the rules of its two keys that the snapshot holds; a
    not-found of the service is not taken for a deletion of the ingress. *)
Theorem direct_service_lookup_failure_rolls_back r req h items ingress svcName e :
  LoadBalancer_List r h = inl items ->
  Get_Ingress r req = inl ingress ->
  Ingress.Annotations ingress !! "loxilb.io/direct-loadbalance-service" = Some svcName ->
  Get_Service r {| NamespacedName.Namespace := directNamespace ingress;
                   NamespacedName.Name := svcName |} = inr e ->
  Reconcile r req h = ((noResult, Some e), h ++ [CallList] ++ deleteCalls req items).
Proof.
  intros Hlist Hget Hann Hsvc.
  apply (build_error_aborts r req h items ingress []); try assumption.
  unfold buildModels, createDirectLoxiModelList. rewrite Hann.
  fold (directNamespace ingress). now rewrite Hsvc.
Qed.

Lemma direct_service_lookup_failure_rolls_back_witness :
  Reconcile Cases.directNoService (Scenario.key "ns" "app") []
  = ((noResult, Some Scenario.notFound), [CallList; CallDeleteByName "ns_app"]).
Proof.
  refine (direct_service_lookup_failure_rolls_back Cases.directNoService
            (Scenario.key "ns" "app") [] [Scenario.appPlain] Scenario.appDirect "svc2"
            Scenario.notFound _ _ _ _); reflexivity.
Defined.

(** X14. A path-routed ingress without any service backend (no rule, rules
    without HTTP section, paths without service) gives no desired model: the
    pass lists, creates nothing and deletes nothing, so rules installed for
    it earlier stay on the load balancer. *)
Theorem no_backend_no_change r req h items ingress :
  LoadBalancer_List r h = inl items ->
  Get_Ingress r req = inl ingress ->
  Ingress.Annotations ingress !! "loxilb.io/direct-loadbalance-service" = None ->
  backendsOf ingress = [] ->
  Reconcile r req h = ((requeue30, None), h ++ [CallList]).
Proof.
  intros Hlist Hget Hann Hnone.
  apply (matched_pass_issues_no_create r req h items ingress []); try assumption.
  - unfold buildModels. rewrite Hann, createLoxiModelList_flat, Hnone. reflexivity.
  - intros m [].
Qed.

Lemma no_backend_no_change_witness :
  Reconcile Cases.bareCluster (Scenario.key "ns" "app") [] = ((requeue30, None), [CallList]).
Proof.
  refine (no_backend_no_change Cases.bareCluster (Scenario.key "ns" "app") []
            [Scenario.appPlain] Cases.bare _ _ _ _); reflexivity.
Defined.

(** ** The status loop *)

Lemma statusLoop_fields ings : forall ingress,
  Ingress.Namespace (statusLoop ingress ings) = Ingress.Namespace ingress /\
  Ingress.Name (statusLoop ingress ings) = Ingress.Name ingress /\
  Ingress.Annotations (statusLoop ingress ings) = Ingress.Annotations ingress /\
  Ingress.Rules (statusLoop ingress ings) = Ingress.Rules ingress /\
  Ingress.TLS (statusLoop ingress ings) = Ingress.TLS ingress /\
  exists added,
    Ingress.StatusIngress (statusLoop ingress ings) = Ingress.StatusIngress ingress ++ added /\
    (length added <= length ings)%nat /\
    forall a, In a added -> exists ing, In ing ings /\ a = newIngressLoadBalancerIngress ing.
Proof.
  induction ings as [|ing rest IH]; intros ingress; simpl.
  - repeat split; try reflexivity. exists []. rewrite app_nil_r.
    repeat split; [reflexivity | intros a []].
  - destruct (checkIngressLoadBalancerIngressExist ingress ing).
    + destruct (IH ingress) as (H1 & H2 & H3 & H4 & H5 & added & Hst & Hlen & Hfrom).
      repeat split; try assumption. exists added. repeat split; [assumption | lia |].
      intros a Ha. destruct (Hfrom a Ha) as (x & Hx & ->). eauto.
    + destruct (IH (Ingress.withStatusIngress ingress
                      (Ingress.StatusIngress ingress ++ [newIngressLoadBalancerIngress ing])))
        as (H1 & H2 & H3 & H4 & H5 & added & Hst & Hlen & Hfrom).
      simpl in *. repeat split; try assumption.
      exists (newIngressLoadBalancerIngress ing :: added).
      repeat split; [rewrite Hst; now rewrite <- app_assoc | simpl; lia |].
      intros a [<- | Ha]; [eauto |]. destruct (Hfrom a Ha) as (x & Hx & ->). eauto.
Qed.

Lemma checkExist_mono i1 i2 extra ing :
  Ingress.StatusIngress i2 = Ingress.StatusIngress i1 ++ extra ->
  checkIngressLoadBalancerIngressExist i1 ing = true ->
  checkIngressLoadBalancerIngressExist i2 ing = true.
Proof.
  rewrite !checkExist_iff. intros Hst (i & Hin & H). exists i. split; [| exact H].
  rewrite Hst. apply in_or_app. now left.
Qed.

(** After the loop, every entry of the source that has an address or a
    hostname is found on the status. *)
Lemma statusLoop_covers ings : forall ingress ing,
  In ing ings ->
  LoadBalancerIngress.IP ing <> "" \/ LoadBalancerIngress.Hostname ing <> "" ->
  checkIngressLoadBalancerIngressExist (statusLoop ingress ings) ing = true.
Proof.
  induction ings as [|x rest IH]; intros ingress ing Hin Hid; [destruct Hin |].
  simpl. destruct Hin as [-> | Hin].
  - destruct (checkIngressLoadBalancerIngressExist ingress ing) eqn:Hknown.
    + destruct (statusLoop_fields rest ingress) as (_ & _ & _ & _ & _ & added & Hst & _).
      exact (checkExist_mono _ _ _ _ Hst Hknown).
    + destruct (statusLoop_fields rest
                  (Ingress.withStatusIngress ingress
                     (Ingress.StatusIngress ingress ++ [newIngressLoadBalancerIngress ing])))
        as (_ & _ & _ & _ & _ & added & Hst & _).
      apply (checkExist_mono _ _ _ _ Hst). apply checkExist_iff.
      exists (newIngressLoadBalancerIngress ing). split.
      * simpl. apply in_or_app. right. now left.
      * simpl. destruct Hid as [Hip | Hhost]; [left | right]; auto.
  - destruct (checkIngressLoadBalancerIngressExist ingress x); now apply IH.
Qed.


(** X16. When the status source is fetched, the ingress handed to the status
    write holds, for every entry of the source that has an address or a
    hostname, an entry with that (non-empty) address or that (non-empty)
    hostname. *)
Theorem written_status_covers_source r ingress h key svc ing :
  lbSvcKey ingress = Some key ->
  Get_Service r key = inl svc ->
  In ing (Service.StatusIngress svc) ->
  LoadBalancerIngress.IP ing <> "" \/ LoadBalancerIngress.Hostname ing <> "" ->
  exists written,
    snd (updateIngressStatus r ingress h) = h ++ [CallStatusUpdate written] /\
    exists i, In i (Ingress.StatusIngress written) /\
      ((IngressLoadBalancerIngress.IP i <> "" /\
        IngressLoadBalancerIngress.IP i = LoadBalancerIngress.IP ing) \/
       (IngressLoadBalancerIngress.Hostname i <> "" /\
        IngressLoadBalancerIngress.Hostname i = LoadBalancerIngress.Hostname ing)).
Proof.
  intros Hkey Hsvc Hin Hid. exists (statusLoop ingress (Service.StatusIngress svc)). split.
  - unfold updateIngressStatus. now rewrite Hkey, Hsvc.
  - apply checkExist_iff. now apply statusLoop_covers.
Qed.

Lemma written_status_covers_source_witness :
  exists written,
    snd (updateIngressStatus Cases.statusCluster Scenario.app [])
    = [CallStatusUpdate written] /\
    exists i, In i (Ingress.StatusIngress written) /\
      ((IngressLoadBalancerIngress.IP i <> "" /\
        IngressLoadBalancerIngress.IP i = "198.51.100.4") \/
       (IngressLoadBalancerIngress.Hostname i <> "" /\
        IngressLoadBalancerIngress.Hostname i = "")).
Proof.
  refine (written_status_covers_source Cases.statusCluster Scenario.app []
            (Scenario.key "default" "lb") Cases.lbService2
            {| LoadBalancerIngress.IP := "198.51.100.4";
               LoadBalancerIngress.Hostname := "";
               LoadBalancerIngress.Ports :=
                 [ {| PortStatus.Port := 80; PortStatus.Protocol := "TCP";
                      PortStatus.Error := None |} ] |} _ _ _ _).
  - reflexivity.
  - reflexivity.
  - simpl. auto.
  - left. discriminate.
Defined.

(** X17. Running the status loop a second time over the same source changes
    nothing, provided every entry of the source has an address or a
    hostname. *)
Theorem status_loop_idempotent ingress ings :
  (forall ing, In ing ings ->
     LoadBalancerIngress.IP ing <> "" \/ LoadBalancerIngress.Hostname ing <> "") ->
  statusLoop (statusLoop ingress ings) ings = statusLoop ingress ings.
Proof.
  intros Hid. apply statusLoop_all_known. intros ing Hin.
  apply statusLoop_covers; auto.
Qed.

Lemma status_loop_idempotent_witness :
  statusLoop (statusLoop Scenario.app Cases.lbAddresses) Cases.lbAddresses
  = statusLoop Scenario.app Cases.lbAddresses.
Proof.
  apply (status_loop_idempotent Scenario.app Cases.lbAddresses).
  intros ing [<- | [<- | []]]; left; discriminate.
Defined.

(** X18. A source entry with neither address nor hostname is never taken for
    a duplicate, not even of its own copy: the loop appends it every time it
    meets it. *)
Theorem blank_entry_is_always_appended ingress ing :
  LoadBalancerIngress.IP ing = "" ->
  LoadBalancerIngress.Hostname ing = "" ->
  checkIngressLoadBalancerIngressExist ingress ing = false /\
  Ingress.StatusIngress (statusLoop ingress [ing; ing])
  = Ingress.StatusIngress ingress
    ++ [newIngressLoadBalancerIngress ing; newIngressLoadBalancerIngress ing].
Proof.
  intros Hip Hhost.
  assert (Hnever : forall i, checkIngressLoadBalancerIngressExist i ing = false).
  { intros i. destruct (checkIngressLoadBalancerIngressExist i ing) eqn:Hc; [| reflexivity].
    apply checkExist_iff in Hc as (x & _ & [[Hne Heq] | [Hne Heq]]); congruence. }
  split; [apply Hnever |].
  simpl. rewrite !Hnever. simpl. now rewrite <- app_assoc.
Qed.

Lemma blank_entry_is_always_appended_witness :
  length (Ingress.StatusIngress (statusLoop Scenario.app [Cases.blank; Cases.blank])) = 3%nat.
Proof.
  rewrite (proj2 (blank_entry_is_always_appended Scenario.app Cases.blank eq_refl eq_refl)).
  reflexivity.
Defined.

(** ** The resolver over port records *)

Lemma endpointsOfPorts_In ep e :
  In e (endpointsOfPorts ep) <->
  exists subset addr port,
    In subset (Endpoints.Subsets ep) /\
    In addr (EndpointSubset.Addresses subset) /\
    In port (EndpointSubset.Ports subset) /\
    e = {| LoadBalancerEndpoint.EndpointIP := EndpointAddress.IP addr;
           LoadBalancerEndpoint.TargetPort := uint16 (EndpointPort.Port port);
           LoadBalancerEndpoint.Weight := 1 |}.
Proof.
  unfold endpointsOfPorts. rewrite in_flat_map. split.
  - intros (subset & Hs & Hin). apply in_flat_map in Hin as (addr & Ha & Hin).
    apply in_map_iff in Hin as (port & <- & Hp). exists subset, addr, port. auto.
  - intros (subset & addr & port & Hs & Ha & Hp & ->). exists subset. split; [exact Hs |].
    apply in_flat_map. exists addr. split; [exact Ha |].
    apply in_map_iff. exists port. auto.
Qed.

Lemma endpointsOfPorts_length ep :
  length (endpointsOfPorts ep)
  = list_sum (map (fun subset => (length (EndpointSubset.Addresses subset)
                                  * length (EndpointSubset.Ports subset))%nat)
                  (Endpoints.Subsets ep)).
Proof.
  unfold endpointsOfPorts.
  induction (Endpoints.Subsets ep) as [|subset rest IH]; simpl; [reflexivity |].
  rewrite length_app, IH. f_equal.
  induction (EndpointSubset.Addresses subset) as [|addr addrs IHa]; simpl; [reflexivity |].
  now rewrite length_app, length_map, IHa.
Qed.

(** X19. [createLoxiLoadBalancerEndpoints] pairs every address of a subset
    with every port record of the same subset and with no other: the list
    has (addresses x port records) entries per subset, an address in a
    subset without port record gives no endpoint, and the call fails with
    the no-endpoints error exactly when no subset has both an address and a
    port record. *)
Theorem port_record_resolver r ns name ep :
  Get_Endpoints r {| NamespacedName.Namespace := ns; NamespacedName.Name := name |} = inl ep ->
  (forall e, In e (fst (createLoxiLoadBalancerEndpoints r ns name)) <->
     exists subset addr port,
       In subset (Endpoints.Subsets ep) /\
       In addr (EndpointSubset.Addresses subset) /\
       In port (EndpointSubset.Ports subset) /\
       e = {| LoadBalancerEndpoint.EndpointIP := EndpointAddress.IP addr;
              LoadBalancerEndpoint.TargetPort := uint16 (EndpointPort.Port port);
              LoadBalancerEndpoint.Weight := 1 |}) /\
  length (fst (createLoxiLoadBalancerEndpoints r ns name))
  = list_sum (map (fun subset => (length (EndpointSubset.Addresses subset)
                                  * length (EndpointSubset.Ports subset))%nat)
                  (Endpoints.Subsets ep)) /\
  ((exists subset, In subset (Endpoints.Subsets ep) /\
                   EndpointSubset.Addresses subset <> [] /\
                   EndpointSubset.Ports subset <> []) ->
   snd (createLoxiLoadBalancerEndpoints r ns name) = None) /\
  ((forall subset, In subset (Endpoints.Subsets ep) ->
                   EndpointSubset.Addresses subset = [] \/ EndpointSubset.Ports subset = []) ->
   createLoxiLoadBalancerEndpoints r ns name = ([], Some (noEndpointsError ns name))).
Proof.
  intros Hget. unfold createLoxiLoadBalancerEndpoints. rewrite Hget. cbn zeta.
  assert (Hfst : forall b : bool,
            fst (if b then (endpointsOfPorts ep, Some (noEndpointsError ns name))
                 else (endpointsOfPorts ep, None)) = endpointsOfPorts ep)
    by (intros []; reflexivity).
  rewrite Hfst. split; [intros e; apply endpointsOfPorts_In |].
  split; [apply endpointsOfPorts_length |]. split.
  - intros (subset & Hs & Ha & Hp).
    destruct (EndpointSubset.Addresses subset) as [|addr addrs] eqn:Haddr; [congruence |].
    destruct (EndpointSubset.Ports subset) as [|port ports] eqn:Hport; [congruence |].
    assert (Hin : In {| LoadBalancerEndpoint.EndpointIP := EndpointAddress.IP addr;
                        LoadBalancerEndpoint.TargetPort := uint16 (EndpointPort.Port port);
                        LoadBalancerEndpoint.Weight := 1 |} (endpointsOfPorts ep)).
    { apply endpointsOfPorts_In. exists subset, addr, port.
      rewrite Haddr, Hport. simpl. auto. }
    destruct (endpointsOfPorts ep); [destruct Hin | reflexivity].
  - intros Hnone.
    destruct (endpointsOfPorts ep) as [|e l] eqn:Heps; [reflexivity |].
    assert (Hin : In e (endpointsOfPorts ep)) by (rewrite Heps; now left).
    apply endpointsOfPorts_In in Hin as (subset & addr & port & Hs & Ha & Hp & _).
    destruct (Hnone subset Hs) as [H | H]; rewrite H in *; contradiction.
Qed.

Lemma port_record_resolver_witness :
  length (fst (createLoxiLoadBalancerEndpoints Cases.twoSubsetsCluster "ns" "svc")) = 4%nat.
Proof.
  rewrite (proj1 (proj2 (port_record_resolver Cases.twoSubsetsCluster "ns" "svc"
                           Cases.twoSubsets eq_refl))).
  reflexivity.
Defined.

(** ** [pkg/net.go] *)

Lemma usable_IPNet ip mask :
  usable (net.IPNet ip mask) = true <->
  exists ip4, net.To4 ip = Some ip4 /\ nth 0 ip4 0%Z <> 127%Z.
Proof.
  unfold usable, net.IsLoopback. destruct (net.To4 ip) as [ip4|].
  - rewrite andb_true_r, negb_true_iff, Z.eqb_neq. split.
    + intros H. exists ip4. auto.
    + intros (x & Hx & Hne). injection Hx as <-. exact Hne.
  - rewrite andb_false_r. split; [discriminate | intros (x & Hx & _); discriminate].
Qed.

Lemma firstNonLoopBackIPv4_skip pre : forall rest,
  (forall a, In a pre -> usable a = false) ->
  firstNonLoopBackIPv4 (pre ++ rest) = firstNonLoopBackIPv4 rest.
Proof.
  induction pre as [|a pre IH]; intros rest Hpre; simpl; [reflexivity |].
  pose proof (Hpre a (or_introl eq_refl)) as Ha.
  assert (Hrest : firstNonLoopBackIPv4 (pre ++ rest) = firstNonLoopBackIPv4 rest)
    by (apply IH; intros x Hx; apply Hpre; now right).
  destruct a as [ip mask | ip zone]; [| exact Hrest].
  unfold usable in Ha. destruct (negb (net.IsLoopback ip)); [| exact Hrest].
  destruct (net.To4 ip); [discriminate Ha | exact Hrest].
Qed.

Lemma firstNonLoopBackIPv4_cases addrs :
  match firstNonLoopBackIPv4 addrs with
  | Some s =>
      exists pre ip mask post ip4,
        addrs = pre ++ net.IPNet ip mask :: post /\
        (forall a, In a pre -> usable a = false) /\
        net.To4 ip = Some ip4 /\ nth 0 ip4 0%Z <> 127%Z /\ s = net.dotted ip4
  | None => forall a, In a addrs -> usable a = false
  end.
Proof.
  induction addrs as [|a rest IH]; simpl; [intros a [] |].
  assert (Hskip : usable a = false ->
            match firstNonLoopBackIPv4 rest with
            | Some s =>
                exists pre ip mask post ip4,
                  a :: rest = pre ++ net.IPNet ip mask :: post /\
                  (forall x, In x pre -> usable x = false) /\
                  net.To4 ip = Some ip4 /\ nth 0 ip4 0%Z <> 127%Z /\ s = net.dotted ip4
            | None => forall x, In x (a :: rest) -> usable x = false
            end).
  { intros Ha. destruct (firstNonLoopBackIPv4 rest) as [s|].
    - destruct IH as (pre & ip & mask & post & ip4 & -> & Hpre & H4 & Hne & ->).
      exists (a :: pre), ip, mask, post, ip4. repeat split; auto.
      intros x [<- | Hx]; auto.
    - intros x [<- | Hx]; auto. }
  destruct a as [ip mask | ip zone]; [| now apply Hskip].
  destruct (negb (net.IsLoopback ip)) eqn:Hlo.
  - destruct (net.To4 ip) as [ip4|] eqn:H4.
    + exists [], ip, mask, rest, ip4. repeat split; auto; [intros x [] |].
      unfold net.IsLoopback in Hlo. rewrite H4 in Hlo.
      now apply negb_true_iff, Z.eqb_neq in Hlo.
    + apply Hskip. unfold usable. now rewrite H4, andb_false_r.
  - apply Hskip. unfold usable. now rewrite Hlo.
Qed.

(** X20. [GetLocalNonLoopBackIP] returns the dotted IPv4 form of the first
    interface address that is an IP network, is not a loopback address and
    has an IPv4 form (4 bytes, or IPv4-mapped); addresses before it that are
    loopback, IPv6-only or of another kind are passed over. It fails with
    [non-lo addresses not found] exactly when no address qualifies, and with
    [no addresses found] when the interfaces cannot be read, whatever the
    error was. *)
Theorem first_non_loopback_ipv4 addrs :
  (forall s,
     GetLocalNonLoopBackIP (inl addrs) = (s, None) <->
     exists pre ip mask post ip4,
       addrs = pre ++ net.IPNet ip mask :: post /\
       (forall a, In a pre -> usable a = false) /\
       net.To4 ip = Some ip4 /\ nth 0 ip4 0%Z <> 127%Z /\ s = net.dotted ip4) /\
  (GetLocalNonLoopBackIP (inl addrs) = ("", Some (Errorf "non-lo addresses not found")) <->
   forall a, In a addrs -> usable a = false) /\
  (forall e, GetLocalNonLoopBackIP (inr e) = ("", Some (Errorf "no addresses found"))).
Proof.
  unfold GetLocalNonLoopBackIP. split; [| split; [| reflexivity]].
  - intros s. split.
    + pose proof (firstNonLoopBackIPv4_cases addrs) as Hc.
      destruct (firstNonLoopBackIPv4 addrs) as [s'|]; [| discriminate].
      intros H. injection H as <-. exact Hc.
    + intros (pre & ip & mask & post & ip4 & -> & Hpre & H4 & Hne & ->).
      rewrite (firstNonLoopBackIPv4_skip pre _ Hpre). simpl.
      unfold net.IsLoopback. rewrite H4. apply Z.eqb_neq in Hne. now rewrite Hne.
  - pose proof (firstNonLoopBackIPv4_cases addrs) as Hc. split.
    + destruct (firstNonLoopBackIPv4 addrs) as [s'|]; [discriminate | intros _; exact Hc].
    + intros Hnone. destruct (firstNonLoopBackIPv4 addrs) as [s'|]; [| reflexivity].
      destruct Hc as (pre & ip & mask & post & ip4 & -> & _ & H4 & Hne & _).
      assert (Hu : usable (net.IPNet ip mask) = true) by (apply usable_IPNet; eauto).
      rewrite Hnone in Hu; [discriminate |]. apply in_or_app. right. now left.
Qed.

Lemma first_non_loopback_ipv4_witness :
  GetLocalNonLoopBackIP (inl Cases.podAddrs) = ("10.244.1.17", None).
Proof.
  apply (proj2 (proj1 (first_non_loopback_ipv4 Cases.podAddrs) "10.244.1.17")).
  exists [ net.IPNet [127; 0; 0; 1]%Z [255; 0; 0; 0]%Z;
           net.IPNet [254; 128; 0; 0; 0; 0; 0; 0; 0; 0; 0; 0; 0; 0; 0; 1]%Z [] ],
         [10; 244; 1; 17]%Z, [255; 255; 255; 0]%Z,
         [ net.IPNet [192; 168; 0; 2]%Z [255; 255; 255; 0]%Z ],
         [10; 244; 1; 17]%Z.
  split; [reflexivity |]. split.
  - intros a [<- | [<- | []]]; reflexivity.
  - split; [reflexivity |]. split; [discriminate | reflexivity].
Defined.
